(** * task-mgmt: the task lifecycle, its persistence and the configuration cascade

    A shallow embedding of the Go sources of the service:
    - task.go   : [Task], its derived status, the lifecycle operations and
                  the read-then-decide [Save];
    - config.go : the two variants of [initConfig], the one decoding a JSON
                  file and overriding it from the environment, and the one
                  delegating to the [config] package.

    Go values are modelled as follows: [string] as [string], a [*time.Time]
    as [option Time], an [error] result as [option error] ([None] is [nil]),
    a method on a pointer receiver as a function returning the receiver. *)

From Stdlib Require Import ZArith String Ascii List Lia Permutation.
From stdpp Require Import base strings gmap list.

Local Open Scope string_scope.

(** ** package time *)

Module time.

Local Open Scope Z_scope.

Inductive Location := UTC | Local | Zone (name : string).

(** An instant with nanosecond precision, counted from the Unix epoch, and
    the location it is displayed in. The monotonic clock reading that Go
    attaches to [time.Now] is dropped by [Round] and [In] and is not
    modelled. *)
Record Time := mkTime { unixNano : Z; loc : Location }.

Definition Duration := Z.
Definition Nanosecond : Duration := 1%Z.
Definition Second : Duration := 1000000000%Z.

(** Seconds from January 1, year 1 (Go's zero time) to the Unix epoch. *)
Definition unixToInternal : Z := 62135596800%Z.

(** The zero value of [time.Time]. *)
Definition zero : Time := mkTime (- (unixToInternal * Second)) UTC.

Definition Add (t : Time) (d : Duration) : Time :=
  mkTime (unixNano t + d) (loc t).

(** [div(t, d)]: the remainder of the time elapsed since the zero time. *)
Definition rem (t : Time) (d : Duration) : Z :=
  ((unixNano t + unixToInternal * Second) mod d)%Z.

(** [func (t Time) Round(d Duration) Time]: the nearest multiple of [d],
    halfway values rounding up. *)
Definition Round (t : Time) (d : Duration) : Time :=
  if (d <=? 0)%Z then t
  else
    let r := rem t d in
    if (r + r <? d)%Z then Add t (- r) else Add t (d - r).

(** [func (t Time) Truncate(d Duration) Time]: rounding down. The code
    never calls it; the specification words its timestamps with it. *)
Definition Truncate (t : Time) (d : Duration) : Time :=
  if (d <=? 0)%Z then t else Add t (- rem t d).

Definition In (t : Time) (l : Location) : Time := mkTime (unixNano t) l.

(** A time is on a whole second. *)
Definition whole_second (t : Time) : Prop := rem t Second = 0%Z.

End time.

Export time(Time).


(** ** errors *)

(** [ErrNotFound] is the package's sentinel, [sql_ErrNoRows] the one of
    database/sql; every other error is a message. Go compares sentinels by
    identity, which is the comparison of constructors here. *)
Inductive error :=
| ErrNotFound
| sql_ErrNoRows
| errorString (msg : string).

Definition is_ErrNotFound (e : option error) : bool :=
  match e with Some ErrNotFound => true | _ => false end.

Definition is_ErrNoRows (e : option error) : bool :=
  match e with Some sql_ErrNoRows => true | _ => false end.

(** ** task.go *)

Module task.

Record Task := mkTask {
  Id : string;
  Created : Time;
  Updated : Time;
  Title : string;
  Request : option Time;
  Success : option Time;
  Fail : option Time;
  RepoUrl : string;
  RepoCommit : string;
  SourceUrl : string;
  SourceChecksum : string;
  ResultUrl : string;
  ResultHash : string;
  Message : string
}.

(** The zero value [Task{}]. *)
Definition Task_zero : Task :=
  mkTask "" time.zero time.zero "" None None None "" "" "" "" "" "" "".

(** Field assignments [t.F = v]. *)
Definition set_Id (v : string) (t : Task) : Task :=
  mkTask v (Created t) (Updated t) (Title t) (Request t) (Success t) (Fail t)
    (RepoUrl t) (RepoCommit t) (SourceUrl t) (SourceChecksum t)
    (ResultUrl t) (ResultHash t) (Message t).
Definition set_Created (v : Time) (t : Task) : Task :=
  mkTask (Id t) v (Updated t) (Title t) (Request t) (Success t) (Fail t)
    (RepoUrl t) (RepoCommit t) (SourceUrl t) (SourceChecksum t)
    (ResultUrl t) (ResultHash t) (Message t).
Definition set_Updated (v : Time) (t : Task) : Task :=
  mkTask (Id t) (Created t) v (Title t) (Request t) (Success t) (Fail t)
    (RepoUrl t) (RepoCommit t) (SourceUrl t) (SourceChecksum t)
    (ResultUrl t) (ResultHash t) (Message t).
Definition set_Request (v : option Time) (t : Task) : Task :=
  mkTask (Id t) (Created t) (Updated t) (Title t) v (Success t) (Fail t)
    (RepoUrl t) (RepoCommit t) (SourceUrl t) (SourceChecksum t)
    (ResultUrl t) (ResultHash t) (Message t).
Definition set_Success (v : option Time) (t : Task) : Task :=
  mkTask (Id t) (Created t) (Updated t) (Title t) (Request t) v (Fail t)
    (RepoUrl t) (RepoCommit t) (SourceUrl t) (SourceChecksum t)
    (ResultUrl t) (ResultHash t) (Message t).
Definition set_Fail (v : option Time) (t : Task) : Task :=
  mkTask (Id t) (Created t) (Updated t) (Title t) (Request t) (Success t) v
    (RepoUrl t) (RepoCommit t) (SourceUrl t) (SourceChecksum t)
    (ResultUrl t) (ResultHash t) (Message t).
Definition set_ResultUrl (v : string) (t : Task) : Task :=
  mkTask (Id t) (Created t) (Updated t) (Title t) (Request t) (Success t)
    (Fail t) (RepoUrl t) (RepoCommit t) (SourceUrl t) (SourceChecksum t)
    v (ResultHash t) (Message t).
Definition set_ResultHash (v : string) (t : Task) : Task :=
  mkTask (Id t) (Created t) (Updated t) (Title t) (Request t) (Success t)
    (Fail t) (RepoUrl t) (RepoCommit t) (SourceUrl t) (SourceChecksum t)
    (ResultUrl t) v (Message t).
Definition set_Message (v : string) (t : Task) : Task :=
  mkTask (Id t) (Created t) (Updated t) (Title t) (Request t) (Success t)
    (Fail t) (RepoUrl t) (RepoCommit t) (SourceUrl t) (SourceChecksum t)
    (ResultUrl t) (ResultHash t) v.

(** [func (t *Task) StatusString() string] *)
Definition StatusString (t : Task) : string :=
  match Request t with
  | None => "ready"
  | Some _ =>
      match Success t with
      | Some _ => "finished"
      | None =>
          match Fail t with
          | Some _ => "failed"
          | None => "running"
          end
      end
  end.

(** [fmt.Sprintf("/tasks/run/%s", id)] and its sibling. *)
Definition run_url (id : string) : string := "/tasks/run/" +:+ id.
Definition cancel_url (id : string) : string := "/tasks/cancel/" +:+ id.

Definition no_next_action : error := errorString "no next action".

(** [func (t *Task) NextActionUrl() (url string, err error)]: a [switch]
    on the status string, the first matching case wins. *)
Definition NextActionUrl (t : Task) : string * option error :=
  let s := StatusString t in
  if String.eqb s "ready" then (run_url (Id t), None)
  else if String.eqb s "running" then (cancel_url (Id t), None)
  else if String.eqb s "failed" then (run_url (Id t), None)
  else ("", Some no_next_action).

(** [func (t *Task) NextActionTitle() (title string, err error)] *)
Definition NextActionTitle (t : Task) : string * option error :=
  let s := StatusString t in
  if String.eqb s "ready" then ("run", None)
  else if String.eqb s "running" then ("cancel", None)
  else if String.eqb s "failed" then ("re-run", None)
  else ("", Some no_next_action).

(** *** The backing store *)

(** The fourteen values of [sqlArgs], in order; they are also the fourteen
    columns [Scan] reads. *)
Record SqlRow := mkRow {
  col_id : string;
  col_created : Time;
  col_updated : Time;
  col_title : string;
  col_request : option Time;
  col_success : option Time;
  col_fail : option Time;
  col_repo_url : string;
  col_repo_commit : string;
  col_source_url : string;
  col_source_checksum : string;
  col_result_url : string;
  col_result_hash : string;
  col_message : string
}.

(** [func (t *Task) sqlArgs() []interface{}] *)
Definition sqlArgs (t : Task) : SqlRow :=
  mkRow (Id t) (Created t) (Updated t) (Title t) (Request t) (Success t)
    (Fail t) (RepoUrl t) (RepoCommit t) (SourceUrl t) (SourceChecksum t)
    (ResultUrl t) (ResultHash t) (Message t).

(** Modelled from the spec: the tasks table and the statements
    [qTaskReadById], [qTaskInsert], [qTaskUpdate] and [qTaskDelete] are not
    part of the sources at hand. The store is the keyed record store of
    section 4.2 of the specification: one row per identifier, holding the
    values it was given as they are. [outage] is a failure of the connection:
    while it is set, every statement fails with it. *)
Record DB := mkDB {
  tasks : gmap string SqlRow;
  outage : option error
}.

(** The world a task operation runs in: the store behind the [db] handle,
    the successive readings of [time.Now] and the successive results of
    [uuid.New], with the number of each consumed so far. *)
Record World := mkWorld {
  store : DB;
  clock : nat -> Time;
  reads : nat;
  uuids : nat -> string;
  draws : nat
}.

Definition M (A : Type) : Type := World -> A * World.

Definition ret {A : Type} (a : A) : M A := fun w => (a, w).

Definition bind {A B : Type} (c : M A) (k : A -> M B) : M B :=
  fun w => k (fst (c w)) (snd (c w)).

Notation "x <- c ;; k" := (bind c (fun x => k))
  (at level 100, c at next level, right associativity).

Definition time_Now : M Time :=
  fun w => (clock w (reads w),
            mkWorld (store w) (clock w) (S (reads w)) (uuids w) (draws w)).

Definition uuid_New : M string :=
  fun w => (uuids w (draws w),
            mkWorld (store w) (clock w) (reads w) (uuids w) (S (draws w))).

Definition get_store : M DB := fun w => (store w, w).

Definition put_store (d : DB) : M unit :=
  fun w => (tt, mkWorld d (clock w) (reads w) (uuids w) (draws w)).

(** What [row.Scan] has to offer: the columns of the row found, or the error
    of the query. *)
Definition sqlScannable : Type := SqlRow + error.

(** [db.QueryRow(qTaskReadById, id)] *)
Definition QueryRow_qTaskReadById (id : string) : M sqlScannable :=
  d <- get_store ;;
  ret match outage d with
      | Some e => inr e
      | None =>
          match tasks d !! id with
          | Some r => inl r
          | None => inr sql_ErrNoRows
          end
      end.

(** [db.Exec(qTaskInsert, args...)]: the identifier is the key of the table,
    a second row under the same key is refused. *)
Definition duplicate_key : error := errorString "duplicate key".

Definition Exec_qTaskInsert (args : SqlRow) : M (option error) :=
  d <- get_store ;;
  match outage d with
  | Some e => ret (Some e)
  | None =>
      match tasks d !! col_id args with
      | Some _ => ret (Some duplicate_key)
      | None =>
          _ <- put_store (mkDB (<[col_id args := args]> (tasks d)) (outage d)) ;;
          ret None
      end
  end.

(** The row an update leaves: every column is overwritten but the key and
    [created], which section 3 of the specification makes immutable after
    the first save. *)
Definition updated_row (old args : SqlRow) : SqlRow :=
  mkRow (col_id old) (col_created old) (col_updated args) (col_title args)
    (col_request args) (col_success args) (col_fail args) (col_repo_url args)
    (col_repo_commit args) (col_source_url args) (col_source_checksum args)
    (col_result_url args) (col_result_hash args) (col_message args).

(** [db.Exec(qTaskUpdate, args...)]: no row under the key is no error. *)
Definition Exec_qTaskUpdate (args : SqlRow) : M (option error) :=
  d <- get_store ;;
  match outage d with
  | Some e => ret (Some e)
  | None =>
      match tasks d !! col_id args with
      | Some old =>
          _ <- put_store
                 (mkDB (<[col_id args := updated_row old args]> (tasks d))
                       (outage d)) ;;
          ret None
      | None => ret None
      end
  end.

(** [db.Exec(qTaskDelete, id)]: the row filed under the identifier is
    removed. What the statement answers when no row has the identifier is
    left open by sections 4.2 and 9 of the specification; it is the
    parameter [missing], and the store is then as it was. *)
Definition Exec_qTaskDelete (missing : option error) (id : string)
    : M (option error) :=
  d <- get_store ;;
  match outage d with
  | Some e => ret (Some e)
  | None =>
      match tasks d !! id with
      | Some _ =>
          _ <- put_store (mkDB (delete id (tasks d)) (outage d)) ;;
          ret None
      | None => ret missing
      end
  end.

(** *** Reading and saving *)

(** The local variables [Scan] is given are zero until it fills them. *)
Definition zero_columns : SqlRow :=
  mkRow "" time.zero time.zero "" None None None "" "" "" "" "" "" "".

Definition Scan (row : sqlScannable) : SqlRow * option error :=
  match row with
  | inl r => (r, None)
  | inr e => (zero_columns, Some e)
  end.

(** [func (t *Task) UnmarshalSQL(row sqlScannable) error]. Only
    [sql.ErrNoRows] is looked at; after any other outcome of [Scan] the
    receiver is overwritten from the local variables. The composite literal
    lists thirteen fields: [message] is scanned and then left out, so
    [Message] is the empty string. *)
Definition UnmarshalSQL (row : sqlScannable) (t : Task) : Task * option error :=
  let c := fst (Scan row) in
  let err := snd (Scan row) in
  if is_ErrNoRows err then (t, Some ErrNotFound)
  else
    (mkTask (col_id c) (col_created c) (col_updated c) (col_title c)
       (col_request c) (col_success c) (col_fail c) (col_repo_url c)
       (col_repo_commit c) (col_source_url c) (col_source_checksum c)
       (col_result_url c) (col_result_hash c) "",
     None).

(** [func (t *Task) Read(db sqlQueryable) error] *)
Definition Read (t : Task) : M (Task * option error) :=
  if String.eqb (Id t) "" then ret (t, Some ErrNotFound)
  else
    row <- QueryRow_qTaskReadById (Id t) ;;
    ret (UnmarshalSQL row t).

(** [time.Now().Round(time.Second).In(time.UTC)] *)
Definition stamp (now : Time) : Time :=
  time.In (time.Round now time.Second) time.UTC.

(** [func (t *Task) Save(db sqlQueryExecable) error] *)
Definition Save (t : Task) : M (Task * option error) :=
  let prev := set_Id (Id t) Task_zero in
  r <- Read prev ;;
  if is_ErrNotFound (snd r) then
    id <- uuid_New ;;
    let t := set_Id id t in
    now <- time_Now ;;
    let t := set_Created (stamp now) t in
    let t := set_Updated (Created t) t in
    err <- Exec_qTaskInsert (sqlArgs t) ;;
    ret (t, err)
  else
    match snd r with
    | Some err => ret (t, Some err)
    | None =>
        now <- time_Now ;;
        let t := set_Updated (stamp now) t in
        err <- Exec_qTaskUpdate (sqlArgs t) ;;
        ret (t, err)
    end.

(** [func (t *Task) Delete(db sqlQueryExecable) error] *)
Definition Delete (missing : option error) (t : Task)
    : M (Task * option error) :=
  err <- Exec_qTaskDelete missing (Id t) ;;
  ret (t, err).

(** *** The lifecycle operations *)

Section Lifecycle.

(** The notification collaborators live outside the sources at hand. By
    their contract (section 6 of the specification) they report an error or
    none; they touch neither the task they are shown nor the store. *)
Variable SendTaskRequestEmail : Task -> option error.
Variable SendTaskCancelEmail : Task -> option error.

(** [func (t *Task) Run(db *sql.DB) error] *)
Definition Run (t : Task) : M (Task * option error) :=
  now <- time_Now ;;
  let t := set_Request (Some now) t in
  let t := set_Fail None t in
  let t := set_Success None t in
  match SendTaskRequestEmail t with
  | Some err => ret (t, Some err)
  | None => Save t
  end.

(** [func (t *Task) Cancel(db *sql.DB) error] *)
Definition Cancel (t : Task) : M (Task * option error) :=
  now <- time_Now ;;
  let t := set_Fail (Some now) t in
  let t := set_Success None t in
  let t := set_Message "Task Cancelled" t in
  match SendTaskCancelEmail t with
  | Some err => ret (t, Some err)
  | None => Save t
  end.

(** [func (t *Task) Errored(db *sql.DB, message string) error] *)
Definition Errored (message : string) (t : Task) : M (Task * option error) :=
  now <- time_Now ;;
  let t := set_Fail (Some now) t in
  let t := set_Message message t in
  Save t.

(** [func (t *Task) Succeeded(db *sql.DB, url, hash string) error] *)
Definition Succeeded (url hash : string) (t : Task) : M (Task * option error) :=
  now <- time_Now ;;
  let t := set_Success (Some now) t in
  let t := set_ResultUrl url t in
  let t := set_ResultHash hash t in
  Save t.

(** A caller's sequence of lifecycle calls on one task value. The error of
    a call does not undo what the call did to the value, so the next call
    goes on from it. *)
Inductive Op :=
| OpRun
| OpCancel
| OpErrored (message : string)
| OpSucceeded (url hash : string).

Definition apply_op (op : Op) (t : Task) : M (Task * option error) :=
  match op with
  | OpRun => Run t
  | OpCancel => Cancel t
  | OpErrored message => Errored message t
  | OpSucceeded url hash => Succeeded url hash t
  end.

Fixpoint apply_ops (ops : list Op) (t : Task) : M Task :=
  match ops with
  | [] => ret t
  | op :: ops' =>
      r <- apply_op op t ;;
      apply_ops ops' (fst r)
  end.

End Lifecycle.

End task.

(** ** Shared by the two variants of config.go *)

Inductive StatResult := StatOk | StatNotExist | StatFailed.

(** The order in which [for key, value := range values] visits a map is not
    fixed by Go: a run of the program picks one. It is modelled as a function
    that rearranges the entries of the map literal. *)
Definition RangeOrder : Type := list (string * string) -> list (string * string).

Definition range_ok (range : RangeOrder) : Prop :=
  forall l, Permutation (range l) l.

(** [fmt.Errorf("%s env variable or config key must be set", key)] *)
Definition must_be_set (key : string) : error :=
  errorString (key +:+ " env variable or config key must be set").

(** The loop of [requireConfigStrings], over the entries in the order they
    are visited. *)
Fixpoint first_unset (entries : list (string * string)) : option error :=
  match entries with
  | [] => None
  | (key, value) :: rest =>
      if String.eqb value "" then Some (must_be_set key) else first_unset rest
  end.

(** [func requireConfigStrings(values map[string]string) error] is the same
    in both variants. *)
Definition requireConfigStrings (range : RangeOrder)
    (values : list (string * string)) : option error :=
  first_unset (range values).

(** ** config.go, the variant that decodes config.[mode].json *)

Module config_json.

(** What [json.Unmarshal] stores in an [interface{}]. A number keeps its
    literal. *)
#[local] Unset Elimination Schemes.
Inductive JSONValue :=
| JNull
| JBool (b : bool)
| JNumber (literal : string)
| JString (s : string)
| JArray (items : list JSONValue)
| JObject (members : list (string * JSONValue)).
#[local] Set Elimination Schemes.

Record config := mkConfig {
  Port : string;
  UrlRoot : string;
  PostgresDbUrl : string;
  PublicKey : string;
  TLS : bool;
  ProxyForceHttps : bool;
  PostmarkKey : string;
  EmailNotificationRecipients : list string;
  GithubRepoOwner : string;
  GithubRepoName : string;
  IdentityServerUrl : string;
  UserCookieKey : string;
  CertbotResponse : string;
  TemplateData : gmap string JSONValue
}.

(** The zero value [config{}]. *)
Definition config_zero : config :=
  mkConfig "" "" "" "" false false "" [] "" "" "" "" "" ∅.

(** Field assignments [cfg.F = v]. *)
Definition set_Port (v : string) (c : config) : config :=
  mkConfig v (UrlRoot c) (PostgresDbUrl c) (PublicKey c) (TLS c)
    (ProxyForceHttps c) (PostmarkKey c) (EmailNotificationRecipients c)
    (GithubRepoOwner c) (GithubRepoName c) (IdentityServerUrl c)
    (UserCookieKey c) (CertbotResponse c) (TemplateData c).
Definition set_UrlRoot (v : string) (c : config) : config :=
  mkConfig (Port c) v (PostgresDbUrl c) (PublicKey c) (TLS c)
    (ProxyForceHttps c) (PostmarkKey c) (EmailNotificationRecipients c)
    (GithubRepoOwner c) (GithubRepoName c) (IdentityServerUrl c)
    (UserCookieKey c) (CertbotResponse c) (TemplateData c).
Definition set_PostgresDbUrl (v : string) (c : config) : config :=
  mkConfig (Port c) (UrlRoot c) v (PublicKey c) (TLS c) (ProxyForceHttps c)
    (PostmarkKey c) (EmailNotificationRecipients c) (GithubRepoOwner c)
    (GithubRepoName c) (IdentityServerUrl c) (UserCookieKey c)
    (CertbotResponse c) (TemplateData c).
Definition set_PublicKey (v : string) (c : config) : config :=
  mkConfig (Port c) (UrlRoot c) (PostgresDbUrl c) v (TLS c)
    (ProxyForceHttps c) (PostmarkKey c) (EmailNotificationRecipients c)
    (GithubRepoOwner c) (GithubRepoName c) (IdentityServerUrl c)
    (UserCookieKey c) (CertbotResponse c) (TemplateData c).
Definition set_TLS (v : bool) (c : config) : config :=
  mkConfig (Port c) (UrlRoot c) (PostgresDbUrl c) (PublicKey c) v
    (ProxyForceHttps c) (PostmarkKey c) (EmailNotificationRecipients c)
    (GithubRepoOwner c) (GithubRepoName c) (IdentityServerUrl c)
    (UserCookieKey c) (CertbotResponse c) (TemplateData c).
Definition set_ProxyForceHttps (v : bool) (c : config) : config :=
  mkConfig (Port c) (UrlRoot c) (PostgresDbUrl c) (PublicKey c) (TLS c) v
    (PostmarkKey c) (EmailNotificationRecipients c) (GithubRepoOwner c)
    (GithubRepoName c) (IdentityServerUrl c) (UserCookieKey c)
    (CertbotResponse c) (TemplateData c).
Definition set_PostmarkKey (v : string) (c : config) : config :=
  mkConfig (Port c) (UrlRoot c) (PostgresDbUrl c) (PublicKey c) (TLS c)
    (ProxyForceHttps c) v (EmailNotificationRecipients c)
    (GithubRepoOwner c) (GithubRepoName c) (IdentityServerUrl c)
    (UserCookieKey c) (CertbotResponse c) (TemplateData c).
Definition set_EmailNotificationRecipients (v : list string) (c : config) : config :=
  mkConfig (Port c) (UrlRoot c) (PostgresDbUrl c) (PublicKey c) (TLS c)
    (ProxyForceHttps c) (PostmarkKey c) v (GithubRepoOwner c)
    (GithubRepoName c) (IdentityServerUrl c) (UserCookieKey c)
    (CertbotResponse c) (TemplateData c).
Definition set_GithubRepoOwner (v : string) (c : config) : config :=
  mkConfig (Port c) (UrlRoot c) (PostgresDbUrl c) (PublicKey c) (TLS c)
    (ProxyForceHttps c) (PostmarkKey c) (EmailNotificationRecipients c) v
    (GithubRepoName c) (IdentityServerUrl c) (UserCookieKey c)
    (CertbotResponse c) (TemplateData c).
Definition set_GithubRepoName (v : string) (c : config) : config :=
  mkConfig (Port c) (UrlRoot c) (PostgresDbUrl c) (PublicKey c) (TLS c)
    (ProxyForceHttps c) (PostmarkKey c) (EmailNotificationRecipients c)
    (GithubRepoOwner c) v (IdentityServerUrl c) (UserCookieKey c)
    (CertbotResponse c) (TemplateData c).
Definition set_IdentityServerUrl (v : string) (c : config) : config :=
  mkConfig (Port c) (UrlRoot c) (PostgresDbUrl c) (PublicKey c) (TLS c)
    (ProxyForceHttps c) (PostmarkKey c) (EmailNotificationRecipients c)
    (GithubRepoOwner c) (GithubRepoName c) v (UserCookieKey c)
    (CertbotResponse c) (TemplateData c).
Definition set_UserCookieKey (v : string) (c : config) : config :=
  mkConfig (Port c) (UrlRoot c) (PostgresDbUrl c) (PublicKey c) (TLS c)
    (ProxyForceHttps c) (PostmarkKey c) (EmailNotificationRecipients c)
    (GithubRepoOwner c) (GithubRepoName c) (IdentityServerUrl c) v
    (CertbotResponse c) (TemplateData c).
Definition set_CertbotResponse (v : string) (c : config) : config :=
  mkConfig (Port c) (UrlRoot c) (PostgresDbUrl c) (PublicKey c) (TLS c)
    (ProxyForceHttps c) (PostmarkKey c) (EmailNotificationRecipients c)
    (GithubRepoOwner c) (GithubRepoName c) (IdentityServerUrl c)
    (UserCookieKey c) v (TemplateData c).
Definition set_TemplateData (v : gmap string JSONValue) (c : config) : config :=
  mkConfig (Port c) (UrlRoot c) (PostgresDbUrl c) (PublicKey c) (TLS c)
    (ProxyForceHttps c) (PostmarkKey c) (EmailNotificationRecipients c)
    (GithubRepoOwner c) (GithubRepoName c) (IdentityServerUrl c)
    (UserCookieKey c) (CertbotResponse c) v.

(** What [initConfig] asks of the operating system and of the libraries:
    the environment, [os.Stat], [ioutil.ReadFile] (the data or the message
    of the error), [filepath.Join], [json.Unmarshal] (the struct after
    decoding and the message of the error, if any) and the order of the map
    iteration. *)
Record Host := mkHost {
  environ : gmap string string;
  os_Stat : string -> StatResult;
  ioutil_ReadFile : string -> string + string;
  filepath_Join : list string -> string;
  json_Unmarshal : string -> config -> config * option string;
  range : RangeOrder
}.

(** [os.Getenv]: the empty string when the variable is not set. *)
Definition os_Getenv (h : Host) (key : string) : string :=
  default "" (environ h !! key).

(** [strings.Split(s, ",")] *)
Fixpoint strings_Split_comma (s : string) : list string :=
  match s with
  | EmptyString => [""]
  | String c s' =>
      if Ascii.eqb c ","%char then "" :: strings_Split_comma s'
      else
        match strings_Split_comma s' with
        | [] => [String c ""]
        | piece :: pieces => String c piece :: pieces
        end
  end.

(** [func packagePath(path string) string] *)
Definition packagePath (h : Host) (path : string) : string :=
  filepath_Join h
    [os_Getenv h "GOPATH"; "src/github.com/archivers-space/task-mgmt"; path].

(** [func readEnvString(key, def string) string] *)
Definition readEnvString (h : Host) (key def : string) : string :=
  let env := os_Getenv h key in
  if negb (String.eqb env "") then env else def.

(** [func readEnvBool(key string, def bool) bool] *)
Definition readEnvBool (h : Host) (key : string) (def : bool) : bool :=
  let env := os_Getenv h key in
  if negb (String.eqb env "") then
    String.eqb env "true" || String.eqb env "TRUE" || String.eqb env "t"
  else def.

(** [func readEnvStringSlice(key string, def []string) []string] *)
Definition readEnvStringSlice (h : Host) (key : string) (def : list string)
    : list string :=
  let env := os_Getenv h key in
  if negb (String.eqb env "") then strings_Split_comma env else def.

(** [func fileExists(path string) bool]: [!os.IsNotExist(err)]. *)
Definition fileExists (h : Host) (path : string) : bool :=
  match os_Stat h path with
  | StatNotExist => false
  | _ => true
  end.

(** The file [loadConfigFile] settles on, if any. *)
Definition configFileName (h : Host) (mode : string) : option string :=
  let fileName := packagePath h ("config." +:+ mode +:+ ".json") in
  if negb (fileExists h fileName) then
    let fileName := packagePath h "config.json" in
    if negb (fileExists h fileName) then None else Some fileName
  else Some fileName.

(** [func loadConfigFile(mode string, cfg *config) (err error)]; the line it
    logs is left out. *)
Definition loadConfigFile (h : Host) (mode : string) (cfg : config)
    : config * option error :=
  match configFileName h mode with
  | None => (cfg, None)
  | Some fileName =>
      match ioutil_ReadFile h fileName with
      | inr err =>
          (cfg, Some (errorString ("error reading " +:+ fileName +:+ ": " +:+ err)))
      | inl data =>
          let r := json_Unmarshal h data cfg in
          match snd r with
          | Some err =>
              (fst r,
               Some (errorString ("error parsing " +:+ fileName +:+ ": " +:+ err)))
          | None => (fst r, None)
          end
      end
  end.

(** The twelve overrides from the environment, in the order of the source. *)
Definition overrideFromEnv (h : Host) (cfg : config) : config :=
  let cfg := set_Port (readEnvString h "PORT" (Port cfg)) cfg in
  let cfg := set_UrlRoot (readEnvString h "URL_ROOT" (UrlRoot cfg)) cfg in
  let cfg := set_PublicKey (readEnvString h "PUBLIC_KEY" (PublicKey cfg)) cfg in
  let cfg := set_TLS (readEnvBool h "TLS" (TLS cfg)) cfg in
  let cfg := set_PostgresDbUrl
               (readEnvString h "POSTGRES_DB_URL" (PostgresDbUrl cfg)) cfg in
  let cfg := set_CertbotResponse
               (readEnvString h "CERTBOT_RESPONSE" (CertbotResponse cfg)) cfg in
  let cfg := set_GithubRepoName
               (readEnvString h "GITHUB_REPO_NAME" (GithubRepoName cfg)) cfg in
  let cfg := set_GithubRepoOwner
               (readEnvString h "GITHUB_REPO_OWNER" (GithubRepoOwner cfg)) cfg in
  let cfg := set_PostmarkKey
               (readEnvString h "POSTMARK_KEY" (PostmarkKey cfg)) cfg in
  let cfg := set_UserCookieKey
               (readEnvString h "USER_COOKIE_KEY" (UserCookieKey cfg)) cfg in
  let cfg := set_IdentityServerUrl
               (readEnvString h "IDENTITY_SERVER_URL" (IdentityServerUrl cfg))
               cfg in
  set_EmailNotificationRecipients
    (readEnvStringSlice h "EMAIL_NOTIFICATION_RECIPIENTS"
       (EmailNotificationRecipients cfg)) cfg.

(** [if cfg.Port == "" { cfg.Port = "8080" }] *)
Definition defaultPort (cfg : config) : config :=
  if String.eqb (Port cfg) "" then set_Port "8080" cfg else cfg.

(** The map literal handed to [requireConfigStrings]. *)
Definition required (cfg : config) : list (string * string) :=
  [("PORT", Port cfg);
   ("POSTGRES_DB_URL", PostgresDbUrl cfg);
   ("GITHUB_REPO_OWNER", GithubRepoOwner cfg);
   ("GITHUB_REPO_NAME", GithubRepoName cfg);
   ("IDENTITY_SERVER_URL", IdentityServerUrl cfg)].

(** [func initConfig(mode string) (cfg *config, err error)] *)
Definition initConfig (h : Host) (mode : string) : config * option error :=
  let cfg := config_zero in
  let r := loadConfigFile h mode cfg in
  match snd r with
  | Some err => (fst r, Some err)
  | None =>
      let cfg := overrideFromEnv h (fst r) in
      let cfg := defaultPort cfg in
      (cfg, requireConfigStrings (range h) (required cfg))
  end.

End config_json.

(** ** config.go, the variant that loads .[mode].env through the config package *)

Module config_env.

Record config := mkConfig {
  Port : string;
  UrlRoot : string;
  RpcPort : string;
  PostgresDbUrl : string;
  AmqpUrl : string;
  IpfsApiUrl : string;
  RedisUrl : string;
  PublicKey : string;
  TLS : bool;
  ProxyForceHttps : bool;
  PostmarkKey : string;
  EmailNotificationRecipients : list string;
  CertbotResponse : string
}.

(** The zero value [config{}]. *)
Definition config_zero : config :=
  mkConfig "" "" "" "" "" "" "" "" false false "" [] "".

(** The assignment [cfg.Port = v]. *)
Definition set_Port (v : string) (c : config) : config :=
  mkConfig v (UrlRoot c) (RpcPort c) (PostgresDbUrl c) (AmqpUrl c)
    (IpfsApiUrl c) (RedisUrl c) (PublicKey c) (TLS c) (ProxyForceHttps c)
    (PostmarkKey c) (EmailNotificationRecipients c) (CertbotResponse c).

(** What [initConfig] asks of the operating system and of the libraries.
    [conf_Load] is [Load] of github.com/datatogether/config: given the struct
    and the files to read, the struct it leaves and the message of its
    error, if any. Whatever it reads of the environment is part of it. *)
Record Host := mkHost {
  environ : gmap string string;
  os_Stat : string -> StatResult;
  filepath_Join : list string -> string;
  conf_Load : config -> list string -> config * option string;
  range : RangeOrder
}.

Definition os_Getenv (h : Host) (key : string) : string :=
  default "" (environ h !! key).

(** [func packagePath(path string) string] *)
Definition packagePath (h : Host) (path : string) : string :=
  filepath_Join h
    [os_Getenv h "GOPATH"; "src/github.com/datatogether/task_mgmt"; path].

(** [func fileExists(path string) bool] *)
Definition fileExists (h : Host) (path : string) : bool :=
  match os_Stat h path with
  | StatNotExist => false
  | _ => true
  end.

(** [func configFilePath(mode string, cfg *config) string] *)
Definition configFilePath (h : Host) (mode : string) (cfg : config) : string :=
  let fileName := packagePath h ("." +:+ mode +:+ ".env") in
  if negb (fileExists h fileName) then
    let fileName := packagePath h ".env" in
    if negb (fileExists h fileName) then "" else fileName
  else fileName.

(** [if cfg.Port == "" { cfg.Port = "8080" }] *)
Definition defaultPort (cfg : config) : config :=
  if String.eqb (Port cfg) "" then set_Port "8080" cfg else cfg.

(** The map literal handed to [requireConfigStrings]. *)
Definition required (cfg : config) : list (string * string) :=
  [("PORT", Port cfg); ("POSTGRES_DB_URL", PostgresDbUrl cfg)].

(** [func initConfig(mode string) (cfg *config, err error)]. An error of
    [conf.Load] is logged and dropped; the switch of the log output in
    develop mode does not show in the result. *)
Definition initConfig (h : Host) (mode : string) : config * option error :=
  let cfg := config_zero in
  let path := configFilePath h mode cfg in
  let cfg :=
    if negb (String.eqb path "") then fst (conf_Load h cfg [path])
    else fst (conf_Load h cfg []) in
  let cfg := defaultPort cfg in
  (cfg, requireConfigStrings (range h) (required cfg)).

End config_env.


(** ** The words of the specification *)

Module spec.

Import task.

(** The table of section 4.3: the status derived from the three optional
    timestamps, under the names [StatusString] gives the four states. *)
Definition status_table (request success fail : option Time) : string :=
  match request, success, fail with
  | None, _, _ => "ready"
  | Some _, None, None => "running"
  | Some _, Some _, _ => "finished"
  | Some _, None, Some _ => "failed"
  end.

(** The suggested next action of each status, as a title and as a url. *)
Definition next_title (status : string) : string :=
  if String.eqb status "ready" then "run"
  else if String.eqb status "running" then "cancel"
  else if String.eqb status "failed" then "re-run"
  else "".

(** [success] and [fail] are both set. *)
Definition both_set (t : Task) : Prop :=
  Success t <> None /\ Fail t <> None.

(** The task was never requested, has not succeeded and has not failed. *)
Definition fresh (t : Task) : Prop :=
  Request t = None /\ Success t = None /\ Fail t = None.

(** The task [UnmarshalSQL] builds from the columns of a row. *)
Definition scanned (r : SqlRow) : Task :=
  mkTask (col_id r) (col_created r) (col_updated r) (col_title r)
    (col_request r) (col_success r) (col_fail r) (col_repo_url r)
    (col_repo_commit r) (col_source_url r) (col_source_checksum r)
    (col_result_url r) (col_result_hash r) "".

(** The store answers. *)
Definition healthy (w : World) : Prop := outage (store w) = None.

(** The identifier of the task is empty or unknown to the store. *)
Definition unknown (t : Task) (w : World) : Prop :=
  Id t = "" \/ tasks (store w) !! Id t = None.

(** The identifier of the task is that of the row [old] of the store. *)
Definition known (t : Task) (w : World) (old : SqlRow) : Prop :=
  Id t <> "" /\ tasks (store w) !! Id t = Some old.

(** The next reading of the clock and the next identifier drawn. *)
Definition now (w : World) : Time := clock w (reads w).
Definition next_uuid (w : World) : string := uuids w (draws w).

(** The value [Save] leaves in the task it inserts. *)
Definition inserted (t : Task) (w : World) : Task :=
  set_Updated (stamp (now w))
    (set_Created (stamp (now w)) (set_Id (next_uuid w) t)).

(** The world after [Save] has read the clock once more and, when it
    inserts, has drawn an identifier, with [rows] in the store. *)
Definition after_insert (w : World) (rows : gmap string SqlRow) : World :=
  mkWorld (mkDB rows (outage (store w))) (clock w) (S (reads w)) (uuids w)
    (S (draws w)).

Definition after_update (w : World) (rows : gmap string SqlRow) : World :=
  mkWorld (mkDB rows (outage (store w))) (clock w) (S (reads w)) (uuids w)
    (draws w).

(** The world after one reading of the clock. *)
Definition tick (w : World) : World :=
  mkWorld (store w) (clock w) (S (reads w)) (uuids w) (draws w).

(** [now()] truncated to the second in UTC, in the words of section 4.2. *)
Definition truncated_stamp (t : Time) : Time :=
  time.In (time.Truncate t time.Second) time.UTC.

(** The task as [Run] and [Cancel] show it to the notification, and as
    [Errored] and [Succeeded] hand it to [Save]. *)
Definition requested (t : Task) (w : World) : Task :=
  set_Success None (set_Fail None (set_Request (Some (now w)) t)).

Definition cancelled (t : Task) (w : World) : Task :=
  set_Message "Task Cancelled"
    (set_Success None (set_Fail (Some (now w)) t)).

Definition errored (message : string) (t : Task) (w : World) : Task :=
  set_Message message (set_Fail (Some (now w)) t).

Definition succeeded (url hash : string) (t : Task) (w : World) : Task :=
  set_ResultHash hash (set_ResultUrl url (set_Success (Some (now w)) t)).

(** An operation comes in its turn: [Errored] on a task that has not
    succeeded, [Succeeded] on a task that has not failed; [Run] and [Cancel]
    at any time. *)
Definition in_turn (op : Op) (t : Task) : bool :=
  match op with
  | OpRun | OpCancel => true
  | OpErrored _ => match Success t with None => true | Some _ => false end
  | OpSucceeded _ _ => match Fail t with None => true | Some _ => false end
  end.

(** Every operation of the sequence comes in its turn, on the task and in
    the world the operations before it have left. *)
Fixpoint all_in_turn (send_request send_cancel : Task -> option error)
    (ops : list Op) (t : Task) (w : World) : bool :=
  match ops with
  | [] => true
  | op :: ops' =>
      in_turn op t &&
      all_in_turn send_request send_cancel ops'
        (fst (fst (apply_op send_request send_cancel op t w)))
        (snd (apply_op send_request send_cancel op t w))
  end.

(** The literals [readEnvBool] takes for true. *)
Definition env_true (v : string) : bool :=
  String.eqb v "true" || String.eqb v "TRUE" || String.eqb v "t".

(** Lower case of the letters A to Z, for the case-insensitive comparison
    section 4.1 speaks of. *)
Definition lower (c : ascii) : ascii :=
  let n := nat_of_ascii c in
  if Nat.leb 65 n && Nat.leb n 90 then ascii_of_nat (n + 32) else c.

Fixpoint to_lower (s : string) : string :=
  match s with
  | EmptyString => EmptyString
  | String c s' => String (lower c) (to_lower s')
  end.

Definition true_ignoring_case (v : string) : bool :=
  String.eqb (to_lower v) "true" || String.eqb (to_lower v) "t".


(** Every row of the store is filed under its own identifier. *)
Definition keyed (d : DB) : Prop :=
  forall (k : string) (r : SqlRow), tasks d !! k = Some r -> col_id r = k.

(** The world after [Read], [Save] and the like: same clock, same
    generator. *)
Definition same_oracles (w w' : World) : Prop :=
  clock w' = clock w /\ uuids w' = uuids w.

(** The string has a comma in it. *)
Fixpoint has_comma (s : string) : bool :=
  match s with
  | EmptyString => false
  | String c s' => Ascii.eqb c ","%char || has_comma s'
  end.


End spec.

(** ** Worked inputs *)

Module example.

Import task.

(** One and a half seconds after the Unix epoch, local time. *)
Definition half_past : Time := time.mkTime 1500000000 time.Local.

(** The clock advances a quarter of a second from reading to reading. *)
Definition quarter_clock (n : nat) : Time :=
  time.mkTime (1500000000 + Z.of_nat n * 250000000) time.Local.

Definition uuid_supply (n : nat) : string :=
  String (ascii_of_nat (97 + n)) "7c1-41d8".

(** A task that was never saved, with a message. *)
Definition mirror : Task :=
  mkTask "" time.zero time.zero "mirror the wiki" None None None
    "https://github.com/ipfs/ipfs-wiki" "4f0c" "https://ipfs.io" "c1a5" "" ""
    "disk full".

(** An empty store that answers. *)
Definition world : World :=
  mkWorld (mkDB ∅ None) quarter_clock 0 uuid_supply 0.

(** The world once [mirror] has been saved, and the task as a caller holds
    it then. *)
Definition world_saved : World := snd (Save mirror world).
Definition mirror_saved : Task := fst (fst (Save mirror world)).

(** Collaborators that deliver and one that does not. *)
Definition delivered (_ : Task) : option error := None.
Definition smtp_down (_ : Task) : option error :=
  Some (errorString "smtp: connection refused").

(** Hosts for the configuration. [filepath.Join] is played by a join with
    slashes, and the map is visited as written or backwards. *)
Definition join_slash (elems : list string) : string := String.concat "/" elems.

Definition as_written : RangeOrder := fun l => l.
Definition backwards : RangeOrder := fun l => rev l.

Definition gopath : gmap string string := {[ "GOPATH" := "/go" ]}.

Definition production_file : string :=
  "/go/src/github.com/archivers-space/task-mgmt/config.production.json".

Definition quote : string := String (ascii_of_nat 34) EmptyString.

(** The document [{"PORT": "9090"}]. *)
Definition port_9090_document : string :=
  "{" +:+ quote +:+ "PORT" +:+ quote +:+ ": " +:+ quote +:+ "9090" +:+ quote
  +:+ "}".

(** A decoder that knows this one document. *)
Definition decode (data : string) (cfg : config_json.config)
    : config_json.config * option string :=
  if String.eqb data port_9090_document
  then (config_json.set_Port "9090" cfg, None)
  else (cfg, Some "unexpected end of JSON input").

(** No configuration file at all. *)
Definition bare (environ : gmap string string) (order : RangeOrder)
    : config_json.Host :=
  config_json.mkHost environ (fun _ => StatNotExist)
    (fun _ => inr "no such file or directory") join_slash decode order.

(** Only the file of the production mode, holding [port_9090_document]. *)
Definition with_production_file (environ : gmap string string)
    : config_json.Host :=
  config_json.mkHost environ
    (fun path => if String.eqb path production_file then StatOk
                 else StatNotExist)
    (fun path => if String.eqb path production_file
                 then inl port_9090_document
                 else inr "no such file or directory")
    join_slash decode as_written.

(** The production file exists and cannot be read. *)
Definition unreadable : config_json.Host :=
  config_json.mkHost gopath
    (fun path => if String.eqb path production_file then StatOk
                 else StatNotExist)
    (fun _ => inr "permission denied") join_slash decode as_written.

(** The other variant: no file, and a loader that finds nothing to set. *)
Definition bare_env (order : RangeOrder) : config_env.Host :=
  config_env.mkHost gopath (fun _ => StatNotExist) join_slash
    (fun cfg _ => (cfg, None)) order.

End example.

(** ** Theorems *)

Import task.

(** *** The derived status *)

Lemma StatusString_cases (t : Task) :
  StatusString t = "ready" \/ StatusString t = "running" \/
  StatusString t = "finished" \/ StatusString t = "failed".
Proof.
  unfold StatusString.
  destruct (Request t), (Success t), (Fail t); auto.
Qed.

(** C2: [StatusString] is the table of section 4.3 applied to the fields
    [Request], [Success] and [Fail]: ready when the request is null, running
    when it is set and success and fail are null, finished when request and
    success are set, failed when request and fail are set and success is
    not; two tasks that agree on these three fields have the same status,
    whatever their other fields are. *)
Theorem StatusString_is_status_table :
  (forall t : Task,
      StatusString t = spec.status_table (Request t) (Success t) (Fail t)) /\
  (forall (request success fail : option Time)
          (id id' title title' repoUrl repoUrl' repoCommit repoCommit' : string)
          (sourceUrl sourceUrl' sourceChecksum sourceChecksum' : string)
          (resultUrl resultUrl' resultHash resultHash' message message' : string)
          (created created' updated updated' : Time),
      StatusString
        (mkTask id created updated title request success fail repoUrl
           repoCommit sourceUrl sourceChecksum resultUrl resultHash message) =
      StatusString
        (mkTask id' created' updated' title' request success fail repoUrl'
           repoCommit' sourceUrl' sourceChecksum' resultUrl' resultHash'
           message')) /\
  (forall success fail, spec.status_table None success fail = "ready") /\
  (forall r, spec.status_table (Some r) None None = "running") /\
  (forall r s fail, spec.status_table (Some r) (Some s) fail = "finished") /\
  (forall r f, spec.status_table (Some r) None (Some f) = "failed").
Proof.
  repeat split; intros; unfold StatusString, spec.status_table; cbn;
    repeat case_match; reflexivity.
Qed.

(** *** The next action *)

(** C9: [NextActionUrl] and [NextActionTitle] return an error exactly when
    the derived status is finished, and then the empty string with the
    error [no next action]; for ready, running and failed they return, with
    no error, the titles [run], [cancel] and [re-run], and the urls
    [/tasks/run/], [/tasks/cancel/] and [/tasks/run/] followed by the
    identifier of the task. *)
Theorem NextAction_error_iff_finished (t : Task) :
  (snd (NextActionUrl t) <> None <-> StatusString t = "finished") /\
  (snd (NextActionTitle t) <> None <-> StatusString t = "finished") /\
  (StatusString t = "ready" ->
     NextActionTitle t = ("run", None) /\
     NextActionUrl t = ("/tasks/run/" +:+ Id t, None)) /\
  (StatusString t = "running" ->
     NextActionTitle t = ("cancel", None) /\
     NextActionUrl t = ("/tasks/cancel/" +:+ Id t, None)) /\
  (StatusString t = "failed" ->
     NextActionTitle t = ("re-run", None) /\
     NextActionUrl t = ("/tasks/run/" +:+ Id t, None)) /\
  (StatusString t = "finished" ->
     NextActionTitle t = ("", Some (errorString "no next action")) /\
     NextActionUrl t = ("", Some (errorString "no next action"))).
Proof.
  unfold NextActionUrl, NextActionTitle.
  destruct (StatusString_cases t) as [H | [H | [H | H]]]; rewrite H; cbn;
    repeat split; intros; try congruence; try discriminate.
Qed.

(** The statement at a task that is ready, at one that is running, at one
    that has failed and at one that is finished. *)
Lemma NextAction_error_iff_finished_witness :
  let ready := mkTask "b2f1" time.zero time.zero "mirror" None None None
                 "" "" "" "" "" "" "" in
  let running := mkTask "b2f1" time.zero time.zero "mirror" (Some time.zero)
                   None None "" "" "" "" "" "" "" in
  let failed := mkTask "b2f1" time.zero time.zero "mirror" (Some time.zero)
                  None (Some time.zero) "" "" "" "" "" "" "timeout" in
  let finished := mkTask "b2f1" time.zero time.zero "mirror" (Some time.zero)
                    (Some time.zero) None "" "" "" "" "/out" "Qm12" "" in
  (NextActionTitle ready = ("run", None) /\
   NextActionUrl ready = ("/tasks/run/b2f1", None)) /\
  (NextActionTitle running = ("cancel", None) /\
   NextActionUrl running = ("/tasks/cancel/b2f1", None)) /\
  (NextActionTitle failed = ("re-run", None) /\
   NextActionUrl failed = ("/tasks/run/b2f1", None)) /\
  (NextActionTitle finished = ("", Some (errorString "no next action")) /\
   NextActionUrl finished = ("", Some (errorString "no next action"))).
Proof.
  intros ready running failed finished.
  pose proof (NextAction_error_iff_finished ready) as (_ & _ & Hready & _).
  pose proof (NextAction_error_iff_finished running)
    as (_ & _ & _ & Hrunning & _).
  pose proof (NextAction_error_iff_finished failed)
    as (_ & _ & _ & _ & Hfailed & _).
  pose proof (NextAction_error_iff_finished finished)
    as (_ & _ & _ & _ & _ & Hfinished).
  repeat apply conj;
    first [ apply Hready | apply Hrunning | apply Hfailed | apply Hfinished ];
    reflexivity.
Defined.

(** *** Timestamps *)

Lemma rem_Second_range (t : Time) :
  (0 <= time.rem t time.Second < time.Second)%Z.
Proof. unfold time.rem. apply Z.mod_pos_bound. reflexivity. Qed.

Lemma stamp_loc (t : Time) : time.loc (stamp t) = time.UTC.
Proof. reflexivity. Qed.

Lemma stamp_whole_second (t : Time) : time.whole_second (stamp t).
Proof.
  unfold time.whole_second, stamp, time.In, time.Round, time.rem.
  change (time.Second <=? 0)%Z with false. cbv iota.
  set (a := (time.unixNano t + time.unixToInternal * time.Second)%Z).
  assert (Hd : (time.Second <> 0)%Z) by discriminate.
  destruct (Z.ltb_spec (a mod time.Second + a mod time.Second) time.Second);
    cbn [time.Add time.unixNano time.loc].
  - replace (time.unixNano t + - (a mod time.Second) +
             time.unixToInternal * time.Second)%Z
      with (a - a mod time.Second)%Z by (subst a; lia).
    rewrite Zminus_mod_idemp_r, Z.sub_diag. reflexivity.
  - replace (time.unixNano t + (time.Second - a mod time.Second) +
             time.unixToInternal * time.Second)%Z
      with (a - a mod time.Second + 1 * time.Second)%Z by (subst a; lia).
    rewrite Z.mod_add by exact Hd.
    rewrite Zminus_mod_idemp_r, Z.sub_diag. reflexivity.
Qed.

(** The stamp is the second nearest to the reading, the half rounding up. *)
Lemma stamp_nearest (t : Time) :
  let r := time.rem t time.Second in
  ((r + r < time.Second)%Z ->
     time.unixNano (stamp t) = (time.unixNano t - r)%Z) /\
  ((time.Second <= r + r)%Z ->
     time.unixNano (stamp t) = (time.unixNano t + (time.Second - r))%Z).
Proof.
  intros r. unfold stamp, time.In, time.Round.
  change (time.Second <=? 0)%Z with false. cbv iota. fold r.
  destruct (Z.ltb_spec (r + r) time.Second);
    cbn [time.Add time.unixNano time.loc]; split; intros; lia.
Qed.

Lemma stamp_truncated_iff (t : Time) :
  stamp t = spec.truncated_stamp t <->
  (time.rem t time.Second + time.rem t time.Second < time.Second)%Z.
Proof.
  pose proof (rem_Second_range t) as Hr.
  unfold spec.truncated_stamp, stamp, time.In, time.Round, time.Truncate.
  change (time.Second <=? 0)%Z with false. cbv iota.
  destruct (Z.ltb_spec (time.rem t time.Second + time.rem t time.Second)
              time.Second) as [Hlt | Hge];
    cbn [time.Add time.unixNano time.loc].
  - split; [intros _; exact Hlt | reflexivity].
  - split; [| lia]. intros Heq. injection Heq as Heq. lia.
Qed.

(** *** Reading and saving *)

Ltac run_monad :=
  unfold bind, ret, get_store, put_store, time_Now, uuid_New;
  cbn [fst snd store clock reads uuids draws tasks outage].

Lemma String_eqb_false (a b : string) : a <> b -> String.eqb a b = false.
Proof. intros H. apply String.eqb_neq. exact H. Qed.

Lemma Read_unknown (t : Task) (w : World) :
  spec.healthy w -> spec.unknown t w ->
  Read t w = ((t, Some ErrNotFound), w).
Proof.
  unfold spec.healthy, spec.unknown, Read. intros Hup Hnew.
  destruct (String.eqb_spec (Id t) "") as [Hid | Hid]; [reflexivity |].
  destruct Hnew as [Hnew | Hnew]; [contradiction |].
  unfold QueryRow_qTaskReadById. run_monad. rewrite Hup, Hnew. reflexivity.
Qed.

Lemma Read_known (t : Task) (w : World) (old : SqlRow) :
  spec.healthy w -> spec.known t w old ->
  Read t w = ((spec.scanned old, None), w).
Proof.
  unfold spec.healthy, spec.known, Read. intros Hup [Hid Hold].
  rewrite (String_eqb_false _ _ Hid).
  unfold QueryRow_qTaskReadById. run_monad. rewrite Hup, Hold. reflexivity.
Qed.

(** An outage is swallowed by [UnmarshalSQL] unless it happens to be
    [sql.ErrNoRows]: [Read] then reports no error. *)
Lemma Read_outage (t : Task) (w : World) (msg : string) :
  Id t <> "" -> outage (store w) = Some (errorString msg) ->
  Read t w = ((spec.scanned zero_columns, None), w).
Proof.
  unfold Read. intros Hid Hdown. rewrite (String_eqb_false _ _ Hid).
  unfold QueryRow_qTaskReadById. run_monad. rewrite Hdown. reflexivity.
Qed.

Lemma Save_insert (t : Task) (w : World) :
  spec.healthy w -> spec.unknown t w ->
  tasks (store w) !! spec.next_uuid w = None ->
  Save t w =
    ((spec.inserted t w, None),
     spec.after_insert w
       (<[spec.next_uuid w := sqlArgs (spec.inserted t w)]> (tasks (store w)))).
Proof.
  intros Hup Hnew Hfree. unfold Save, bind at 1.
  rewrite (Read_unknown (set_Id (Id t) Task_zero) w Hup Hnew).
  cbn [fst snd is_ErrNotFound].
  unfold Exec_qTaskInsert. run_monad.
  unfold spec.healthy in Hup. rewrite Hup.
  cbn [sqlArgs col_id set_Updated set_Created set_Id Id].
  unfold spec.next_uuid in Hfree. rewrite Hfree. run_monad.
  unfold spec.after_insert. rewrite Hup. reflexivity.
Qed.

(** The task [Save] leaves when it inserts does not depend on what the
    insertion answers. *)
Lemma Save_insert_task (t : Task) (w : World) :
  spec.healthy w -> spec.unknown t w ->
  fst (fst (Save t w)) = spec.inserted t w.
Proof.
  intros Hup Hnew. unfold Save, bind at 1.
  rewrite (Read_unknown (set_Id (Id t) Task_zero) w Hup Hnew).
  cbn [fst snd is_ErrNotFound]. reflexivity.
Qed.

Lemma Save_update (t : Task) (w : World) (old : SqlRow) :
  spec.healthy w -> spec.known t w old ->
  Save t w =
    ((set_Updated (stamp (spec.now w)) t, None),
     spec.after_update w
       (<[Id t :=
            updated_row old (sqlArgs (set_Updated (stamp (spec.now w)) t))]>
          (tasks (store w)))).
Proof.
  intros Hup Hold. unfold Save, bind at 1.
  rewrite (Read_known (set_Id (Id t) Task_zero) w old Hup Hold).
  cbn [fst snd is_ErrNotFound].
  unfold Exec_qTaskUpdate. run_monad.
  unfold spec.healthy in Hup. rewrite Hup.
  cbn [sqlArgs col_id set_Updated Id].
  destruct Hold as [_ Hold]. rewrite Hold. run_monad.
  unfold spec.after_update. rewrite Hup. reflexivity.
Qed.

(** Whatever branch [Save] takes, it leaves the three lifecycle timestamps,
    the message and the result of the task as they are. *)
Lemma Save_keeps (t : Task) (w : World) :
  let t' := fst (fst (Save t w)) in
  Request t' = Request t /\ Success t' = Success t /\ Fail t' = Fail t /\
  Message t' = Message t /\ ResultUrl t' = ResultUrl t /\
  ResultHash t' = ResultHash t /\ Title t' = Title t.
Proof.
  unfold Save. cbv zeta. run_monad.
  destruct (Read (set_Id (Id t) Task_zero) w) as [[p err] w1].
  cbn [fst snd].
  destruct err as [[| | msg] |]; cbn [is_ErrNotFound]; run_monad;
    repeat split; reflexivity.
Qed.

(** Reading back a task that [Save] has just inserted gives the task as
    [Save] left it, the message apart, which comes back empty. *)
Lemma Save_new_Read_back (t : Task) (w : World) :
  spec.healthy w -> spec.unknown t w ->
  tasks (store w) !! spec.next_uuid w = None ->
  spec.next_uuid w <> "" ->
  Read (set_Id (Id (fst (fst (Save t w)))) Task_zero) (snd (Save t w)) =
    ((set_Message "" (fst (fst (Save t w))), None), snd (Save t w)).
Proof.
  intros Hup Hnew Hfree Hid.
  rewrite (Save_insert t w Hup Hnew Hfree). cbn [fst snd].
  rewrite (Read_known _ _ (sqlArgs (spec.inserted t w)));
    [reflexivity | exact Hup |].
  split; [exact Hid |].
  cbn [spec.after_insert store tasks set_Id Id spec.inserted set_Updated
         set_Created].
  apply lookup_insert_eq.
Qed.

(** C1: a new task with the message "disk full" is saved into an empty
    store and read back by the identifier [Save] assigned. Both calls
    succeed and every field comes back as [Save] left it, but the message,
    which comes back empty: [UnmarshalSQL] scans the column and leaves it
    out of the task it builds. *)
Theorem Save_Read_loses_message :
  let saved := Save example.mirror example.world in
  let back :=
    Read (set_Id (Id (fst (fst saved))) Task_zero) (snd saved) in
  snd (fst saved) = None /\
  snd (fst back) = None /\
  Message (fst (fst saved)) = "disk full" /\
  Message (fst (fst back)) = "" /\
  fst (fst back) = set_Message "" (fst (fst saved)).
Proof. vm_compute. repeat split; reflexivity. Qed.

(** C3, as stated, fails: the clock reads 1.5 s, the task has no
    identifier, and [Save] stamps it with 2 s, not with 1 s. *)
Lemma Save_stamp_is_not_truncated :
  spec.healthy example.world /\
  spec.unknown example.mirror example.world /\
  spec.now example.world = example.half_past /\
  Created (fst (fst (Save example.mirror example.world))) =
    time.mkTime 2000000000 time.UTC /\
  spec.truncated_stamp (spec.now example.world) =
    time.mkTime 1000000000 time.UTC /\
  Created (fst (fst (Save example.mirror example.world))) <>
    spec.truncated_stamp (spec.now example.world).
Proof.
  repeat split; try (vm_compute; reflexivity).
  - left. reflexivity.
  - vm_compute. discriminate.
Qed.

Lemma stamp_within_half_second (t : Time) :
  (2 * Z.abs (time.unixNano (stamp t) - time.unixNano t) <= time.Second)%Z.
Proof.
  pose proof (rem_Second_range t) as Hr.
  pose proof (stamp_nearest t) as [Hdown Hup]. cbv zeta in *.
  destruct (Z.lt_ge_cases (time.rem t time.Second + time.rem t time.Second)
              time.Second) as [H | H].
  - rewrite (Hdown H). lia.
  - rewrite (Hup H). lia.
Qed.

(** C3, amended: the store answers. If the identifier of the task is empty
    or unknown to the store, [Save] inserts: the identifier becomes the next
    one of the generator, whatever the caller supplied, [Created] and
    [Updated] become the reading of the clock rounded to the nearest second
    (a whole second, at most half a second away, in UTC), the other fields
    stay, and if the generated identifier is not in the store the insertion
    succeeds and the store gains exactly that row. If the identifier is
    known, [Save] updates: only [Updated] changes in the task, the call
    succeeds, and the row of the store is rewritten with its [created]
    column as it was. *)
Theorem Save_inserts_or_updates (t : Task) (w : World) :
  spec.healthy w ->
  (spec.unknown t w ->
     let t' := fst (fst (Save t w)) in
     t' = spec.inserted t w /\
     Id t' = spec.next_uuid w /\
     Created t' = stamp (spec.now w) /\
     Updated t' = Created t' /\
     time.loc (Created t') = time.UTC /\
     time.whole_second (Created t') /\
     (2 * Z.abs (time.unixNano (Created t') - time.unixNano (spec.now w))
        <= time.Second)%Z /\
     set_Id (Id t) (set_Created (Created t) (set_Updated (Updated t) t')) = t /\
     (tasks (store w) !! spec.next_uuid w = None ->
        snd (fst (Save t w)) = None /\
        tasks (store (snd (Save t w))) =
          <[spec.next_uuid w := sqlArgs t']> (tasks (store w)))) /\
  (forall old : SqlRow,
     spec.known t w old ->
     let t' := fst (fst (Save t w)) in
     t' = set_Updated (stamp (spec.now w)) t /\
     Id t' = Id t /\
     Created t' = Created t /\
     snd (fst (Save t w)) = None /\
     tasks (store (snd (Save t w))) =
       <[Id t := updated_row old (sqlArgs t')]> (tasks (store w)) /\
     col_created (updated_row old (sqlArgs t')) = col_created old).
Proof.
  intros Hup. split.
  - intros Hnew t'. subst t'. rewrite (Save_insert_task t w Hup Hnew).
    repeat split.
    + apply stamp_whole_second.
    + apply stamp_within_half_second.
    + destruct t; reflexivity.
    + rewrite (Save_insert t w Hup Hnew H). reflexivity.
    + rewrite (Save_insert t w Hup Hnew H). reflexivity.
  - intros old Hold t'. subst t'. rewrite (Save_update t w old Hup Hold).
    repeat split.
Qed.

(** The statement at a new task and an empty store, and at the same task
    saved once more. *)
Lemma Save_inserts_or_updates_witness :
  (Id (fst (fst (Save example.mirror example.world))) = "a7c1-41d8" /\
   Created (fst (fst (Save example.mirror example.world))) =
     time.mkTime 2000000000 time.UTC) /\
  (Created (fst (fst (Save example.mirror_saved example.world_saved))) =
     Created example.mirror_saved /\
   snd (fst (Save example.mirror_saved example.world_saved)) = None).
Proof.
  split.
  - assert (Hup : spec.healthy example.world) by reflexivity.
    assert (Hnew : spec.unknown example.mirror example.world)
      by (left; reflexivity).
    pose proof (Save_inserts_or_updates example.mirror example.world Hup)
      as [Hins _].
    destruct (Hins Hnew) as (_ & Hid & Hcreated & _).
    split; [exact Hid | exact Hcreated].
  - assert (Hup : spec.healthy example.world_saved) by reflexivity.
    assert (Hold : spec.known example.mirror_saved example.world_saved
                     (sqlArgs example.mirror_saved)).
    { split; [discriminate | vm_compute; reflexivity]. }
    pose proof
      (Save_inserts_or_updates example.mirror_saved example.world_saved Hup)
      as [_ Hupd].
    destruct (Hupd _ Hold) as (_ & _ & Hcreated & Herr & _).
    split; [exact Hcreated | exact Herr].
Defined.

(** *** Run and Cancel *)

Lemma Run_unfold (send : Task -> option error) (t : Task) (w : World) :
  Run send t w =
    match send (spec.requested t w) with
    | Some err => ((spec.requested t w, Some err), spec.tick w)
    | None => Save (spec.requested t w) (spec.tick w)
    end.
Proof.
  unfold Run. run_monad. fold (spec.now w). fold (spec.requested t w).
  destruct (send (spec.requested t w)); reflexivity.
Qed.

Lemma Cancel_unfold (send : Task -> option error) (t : Task) (w : World) :
  Cancel send t w =
    match send (spec.cancelled t w) with
    | Some err => ((spec.cancelled t w, Some err), spec.tick w)
    | None => Save (spec.cancelled t w) (spec.tick w)
    end.
Proof.
  unfold Cancel. run_monad. fold (spec.now w). fold (spec.cancelled t w).
  destruct (send (spec.cancelled t w)); reflexivity.
Qed.

Lemma Errored_unfold (message : string) (t : Task) (w : World) :
  Errored message t w = Save (spec.errored message t w) (spec.tick w).
Proof. reflexivity. Qed.

Lemma Succeeded_unfold (url hash : string) (t : Task) (w : World) :
  Succeeded url hash t w = Save (spec.succeeded url hash t w) (spec.tick w).
Proof. reflexivity. Qed.

(** What each operation leaves in [Request], [Success] and [Fail], whether
    it returns an error or not. *)
Lemma apply_op_timestamps (sr sc : Task -> option error) (op : Op)
    (t : Task) (w : World) :
  let t' := fst (fst (apply_op sr sc op t w)) in
  match op with
  | OpRun =>
      Request t' = Some (spec.now w) /\ Success t' = None /\ Fail t' = None
  | OpCancel =>
      Request t' = Request t /\ Success t' = None /\
      Fail t' = Some (spec.now w)
  | OpErrored _ =>
      Request t' = Request t /\ Success t' = Success t /\
      Fail t' = Some (spec.now w)
  | OpSucceeded _ _ =>
      Request t' = Request t /\ Success t' = Some (spec.now w) /\
      Fail t' = Fail t
  end.
Proof.
  destruct op as [| | message | url hash]; cbn [apply_op].
  - rewrite Run_unfold. destruct (sr (spec.requested t w)).
    + repeat split.
    + destruct (Save_keeps (spec.requested t w) (spec.tick w))
        as (H1 & H2 & H3 & _).
      cbv zeta. rewrite H1, H2, H3. repeat split.
  - rewrite Cancel_unfold. destruct (sc (spec.cancelled t w)).
    + repeat split.
    + destruct (Save_keeps (spec.cancelled t w) (spec.tick w))
        as (H1 & H2 & H3 & _).
      cbv zeta. rewrite H1, H2, H3. repeat split.
  - rewrite Errored_unfold.
    destruct (Save_keeps (spec.errored message t w) (spec.tick w))
      as (H1 & H2 & H3 & _).
    cbv zeta. rewrite H1, H2, H3. repeat split.
  - rewrite Succeeded_unfold.
    destruct (Save_keeps (spec.succeeded url hash t w) (spec.tick w))
      as (H1 & H2 & H3 & _).
    cbv zeta. rewrite H1, H2, H3. repeat split.
Qed.

(** C4: [Run] sets [Request] to the reading of the clock and clears [Fail]
    and [Success], then shows the task to the task-requested notification;
    if the notification returns an error, [Run] returns that error and the
    store is the one it started from, and otherwise [Run] goes on to [Save].
    [Cancel] does the same with the task-cancelled notification, after
    setting [Fail] to the reading of the clock, clearing [Success] and
    setting the message. *)
Theorem Run_Cancel_notify_before_save
    (send : Task -> option error) (t : Task) (w : World) :
  (Request (fst (fst (Run send t w))) = Some (spec.now w) /\
   Fail (fst (fst (Run send t w))) = None /\
   Success (fst (fst (Run send t w))) = None) /\
  (forall err : error,
     send (spec.requested t w) = Some err ->
     snd (fst (Run send t w)) = Some err /\
     store (snd (Run send t w)) = store w /\
     fst (fst (Run send t w)) = spec.requested t w) /\
  (send (spec.requested t w) = None ->
     Run send t w = Save (spec.requested t w) (spec.tick w)) /\
  (forall err : error,
     send (spec.cancelled t w) = Some err ->
     snd (fst (Cancel send t w)) = Some err /\
     store (snd (Cancel send t w)) = store w /\
     fst (fst (Cancel send t w)) = spec.cancelled t w) /\
  (send (spec.cancelled t w) = None ->
     Cancel send t w = Save (spec.cancelled t w) (spec.tick w)).
Proof.
  repeat apply conj.
  - apply (apply_op_timestamps send send OpRun t w).
  - apply (apply_op_timestamps send send OpRun t w).
  - apply (apply_op_timestamps send send OpRun t w).
  - intros err Herr. rewrite Run_unfold, Herr. repeat split.
  - intros Hnone. rewrite Run_unfold, Hnone. reflexivity.
  - intros err Herr. rewrite Cancel_unfold, Herr. repeat split.
  - intros Hnone. rewrite Cancel_unfold, Hnone. reflexivity.
Qed.

(** The statement at a saved task whose notifications cannot be sent. *)
Lemma Run_Cancel_notify_before_save_witness :
  (snd (fst (Run example.smtp_down example.mirror_saved example.world_saved)) =
     Some (errorString "smtp: connection refused") /\
   store (snd (Run example.smtp_down example.mirror_saved example.world_saved)) =
     store example.world_saved) /\
  (snd (fst (Cancel example.smtp_down example.mirror_saved example.world_saved)) =
     Some (errorString "smtp: connection refused") /\
   store (snd (Cancel example.smtp_down example.mirror_saved example.world_saved)) =
     store example.world_saved).
Proof.
  pose proof (Run_Cancel_notify_before_save example.smtp_down
                example.mirror_saved example.world_saved)
    as (_ & HRun & _ & HCancel & _).
  split.
  - destruct (HRun (errorString "smtp: connection refused") eq_refl)
      as (Herr & Hstore & _).
    split; [exact Herr | exact Hstore].
  - destruct (HCancel (errorString "smtp: connection refused") eq_refl)
      as (Herr & Hstore & _).
    split; [exact Herr | exact Hstore].
Defined.

(** *** Success and failure *)

(** C5, as stated, fails: a new task is run, succeeds and is then reported
    as errored. It has both timestamps, and its status is finished. *)
Lemma success_and_fail_both_set :
  let t :=
    fst (apply_ops example.delivered example.delivered
           [OpRun; OpSucceeded "https://ipfs.io/out" "Qm12";
            OpErrored "late failure"]
           example.mirror example.world) in
  spec.fresh example.mirror /\ spec.both_set t /\ StatusString t = "finished".
Proof.
  vm_compute. repeat split; discriminate.
Qed.

Lemma in_turn_keeps_apart (sr sc : Task -> option error) (op : Op)
    (t : Task) (w : World) :
  ~ spec.both_set t -> spec.in_turn op t = true ->
  ~ spec.both_set (fst (fst (apply_op sr sc op t w))).
Proof.
  intros Hinv Hturn [Hs Hf].
  pose proof (apply_op_timestamps sr sc op t w) as H. cbv zeta in H.
  destruct op as [| | message | url hash]; cbn [spec.in_turn] in Hturn.
  - destruct H as (_ & H & _). congruence.
  - destruct H as (_ & H & _). congruence.
  - destruct H as (_ & H & _). rewrite H in Hs.
    destruct (Success t); [discriminate | congruence].
  - destruct H as (_ & _ & H). rewrite H in Hf.
    destruct (Fail t); [discriminate | congruence].
Qed.

(** C5, amended: from a task that was never requested and has neither
    succeeded nor failed, every sequence of [Run], [Cancel], [Errored] and
    [Succeeded] in which [Errored] is only applied to a task that has not
    succeeded and [Succeeded] only to a task that has not failed leaves a
    task whose [Success] and [Fail] are not both set. The operations may
    return errors along the way; the notifications and the world are
    arbitrary. *)
Theorem success_and_fail_apart_in_turn (sr sc : Task -> option error)
    (ops : list Op) (t : Task) (w : World) :
  spec.fresh t ->
  spec.all_in_turn sr sc ops t w = true ->
  ~ spec.both_set (fst (apply_ops sr sc ops t w)).
Proof.
  intros Hfresh.
  assert (Hinv : ~ spec.both_set t).
  { destruct Hfresh as (_ & Hs & _). intros [H _]. contradiction. }
  clear Hfresh. revert t w Hinv.
  induction ops as [| op ops IH]; intros t w Hinv Hturn.
  - exact Hinv.
  - cbn [spec.all_in_turn] in Hturn.
    apply andb_prop in Hturn as [Hop Hrest].
    cbn [apply_ops]. unfold bind.
    apply IH; [| exact Hrest].
    apply in_turn_keeps_apart; assumption.
Qed.

(** The statement at a new task that is run, fails, is run again and
    succeeds. *)
Lemma success_and_fail_apart_in_turn_witness :
  ~ spec.both_set
      (fst (apply_ops example.delivered example.smtp_down
              [OpRun; OpErrored "timeout"; OpRun; OpCancel; OpRun;
               OpSucceeded "https://ipfs.io/out" "Qm12"]
              example.mirror example.world)).
Proof.
  apply success_and_fail_apart_in_turn.
  - repeat split.
  - vm_compute. reflexivity.
Defined.

(** *** Configuration: the environment *)

Import config_json.



(** C6, as stated, fails: [True] and [T] are case variants of the two
    literals, and [readEnvBool] takes them for false. *)
Lemma readEnvBool_is_case_sensitive :
  let h := example.bare {[ "TLS" := "True"; "PROXY" := "T" ]}
             example.as_written in
  spec.true_ignoring_case (os_Getenv h "TLS") = true /\
  readEnvBool h "TLS" true = false /\
  spec.true_ignoring_case (os_Getenv h "PROXY") = true /\
  readEnvBool h "PROXY" true = false.
Proof. vm_compute. repeat split; reflexivity. Qed.

(** C6, amended: when the environment variable is present and not empty,
    [readEnvBool] is true exactly when the variable is one of the three
    literals [true], [TRUE] and [t], compared as they are; every other
    string, such as [True] or [T], gives false. *)
Theorem readEnvBool_three_literals (h : Host) (key : string) (def : bool) :
  os_Getenv h key <> "" ->
  (readEnvBool h key def = true <->
   os_Getenv h key = "true" \/ os_Getenv h key = "TRUE" \/
   os_Getenv h key = "t") /\
  readEnvBool h key def = spec.env_true (os_Getenv h key).
Proof.
  intros Hset. unfold readEnvBool, spec.env_true.
  rewrite (String_eqb_false _ _ Hset). cbn [negb].
  split; [| reflexivity].
  rewrite !orb_true_iff, !String.eqb_eq. tauto.
Qed.

(** The statement at [TLS=TRUE]. *)
Lemma readEnvBool_three_literals_witness :
  readEnvBool (example.bare {[ "TLS" := "TRUE" ]} example.as_written)
    "TLS" false = true.
Proof.
  assert (Hset : os_Getenv
                   (example.bare {[ "TLS" := "TRUE" ]} example.as_written)
                   "TLS" <> "")
    by (vm_compute; discriminate).
  destruct (readEnvBool_three_literals _ "TLS" false Hset) as [_ H].
  rewrite H. vm_compute. reflexivity.
Defined.




(** Once the file has loaded, [initConfig] is the overrides, the default of
    the port and the validation, in this order. *)
Lemma initConfig_loaded (h : Host) (mode : string) (file : config) :
  loadConfigFile h mode config_zero = (file, None) ->
  initConfig h mode =
    (defaultPort (overrideFromEnv h file),
     requireConfigStrings (range h)
       (required (defaultPort (overrideFromEnv h file)))).
Proof. unfold initConfig. intros ->. reflexivity. Qed.

(** When loading fails, [initConfig] returns that error with the struct as
    the loader left it. *)
Lemma initConfig_not_loaded (h : Host) (mode : string) (err : error) :
  snd (loadConfigFile h mode config_zero) = Some err ->
  initConfig h mode = (fst (loadConfigFile h mode config_zero), Some err).
Proof. unfold initConfig. intros ->. reflexivity. Qed.

Lemma defaultPort_Port (cfg : config) :
  Port (defaultPort cfg) = if String.eqb (Port cfg) "" then "8080" else Port cfg.
Proof. unfold defaultPort. destruct (String.eqb (Port cfg) ""); reflexivity. Qed.

Lemma defaultPort_not_empty (cfg : config) : Port (defaultPort cfg) <> "".
Proof.
  rewrite defaultPort_Port.
  destruct (String.eqb_spec (Port cfg) ""); [discriminate | assumption].
Qed.

Lemma defaultPort_others (cfg : config) :
  set_Port (Port cfg) (defaultPort cfg) = cfg.
Proof.
  unfold defaultPort. destruct (String.eqb (Port cfg) ""), cfg; reflexivity.
Qed.

(** *** Configuration: the required fields *)

Lemma first_unset_Some (entries : list (string * string)) (e : error) :
  first_unset entries = Some e ->
  exists key : string, e = must_be_set key /\ In (key, "") entries.
Proof.
  induction entries as [| [key value] rest IH]; cbn [first_unset].
  - discriminate.
  - destruct (String.eqb_spec value "") as [-> | Hne].
    + intros [= <-]. exists key. split; [reflexivity | left; reflexivity].
    + intros H. destruct (IH H) as (k & He & Hin).
      exists k. split; [exact He | right; exact Hin].
Qed.

Lemma first_unset_None (entries : list (string * string)) (key : string) :
  In (key, "") entries -> first_unset entries <> None.
Proof.
  induction entries as [| [k value] rest IH]; cbn [first_unset In].
  - contradiction.
  - intros [[= -> ->] | Hin]; [discriminate |].
    destruct (String.eqb value ""); [discriminate | exact (IH Hin)].
Qed.

Lemma requireConfigStrings_Some (order : RangeOrder)
    (values : list (string * string)) (e : error) :
  range_ok order ->
  requireConfigStrings order values = Some e ->
  exists key : string, e = must_be_set key /\ In (key, "") values.
Proof.
  unfold requireConfigStrings. intros Hok H.
  destruct (first_unset_Some _ _ H) as (key & He & Hin).
  exists key. split; [exact He |].
  exact (Permutation_in _ (Hok values) Hin).
Qed.

Lemma requireConfigStrings_missing (order : RangeOrder)
    (values : list (string * string)) (key : string) :
  range_ok order -> In (key, "") values ->
  requireConfigStrings order values <> None.
Proof.
  unfold requireConfigStrings. intros Hok Hin.
  apply (first_unset_None _ key).
  exact (Permutation_in _ (Permutation_sym (Hok values)) Hin).
Qed.

Lemma as_written_ok : range_ok example.as_written.
Proof. intros l. apply Permutation_refl. Qed.

Lemma backwards_ok : range_ok example.backwards.
Proof. intros l. apply Permutation_sym, Permutation_rev. Qed.





(** *** Configuration: the port *)

(** The errors of [loadConfigFile] are about reading or parsing a file. *)
Lemma loadConfigFile_error (h : Host) (mode : string) (cfg : config)
    (e : error) :
  snd (loadConfigFile h mode cfg) = Some e -> e <> must_be_set "PORT".
Proof.
  unfold loadConfigFile.
  destruct (configFileName h mode) as [fileName |]; [| discriminate].
  destruct (ioutil_ReadFile h fileName) as [data | msg]; cbn [snd].
  - destruct (snd (json_Unmarshal h data cfg)); cbn [snd];
      [intros [= <-]; discriminate | discriminate].
  - intros [= <-]. discriminate.
Qed.

(** C10, as stated, fails: the file of the production mode exists and
    cannot be read. [initConfig] returns the error of the reading, which
    does not name PORT, and a struct whose port is empty: it returns before
    the port is defaulted. *)
Lemma port_is_empty_after_load_failure :
  range_ok (range example.unreadable) /\
  snd (initConfig example.unreadable "production") =
    Some (errorString
            ("error reading " +:+ example.production_file
             +:+ ": permission denied")) /\
  snd (initConfig example.unreadable "production") <>
    Some (must_be_set "PORT") /\
  Port (fst (initConfig example.unreadable "production")) = "".
Proof.
  split; [exact as_written_ok |].
  vm_compute. repeat split; discriminate.
Qed.

(** C10, amended: whatever the environment and the files, and whatever the
    order the map of required values is visited in, neither variant of
    [initConfig] returns the error that names PORT. In the variant that
    loads through the config package the port of the struct returned is
    never empty; in the variant that decodes a file it is never empty once
    the file has loaded or is absent, so in particular whenever [initConfig]
    returns no error. When reading or decoding the file fails, that variant
    returns the error of the file before it resolves the port, and the port
    of the struct it returns may be empty. *)
Theorem port_is_never_reported_missing :
  (forall (h : Host) (mode : string),
      range_ok (range h) ->
      snd (initConfig h mode) <> Some (must_be_set "PORT") /\
      (snd (loadConfigFile h mode config_zero) = None ->
       Port (fst (initConfig h mode)) <> "") /\
      (snd (initConfig h mode) = None ->
       Port (fst (initConfig h mode)) <> "")) /\
  (forall (h : config_env.Host) (mode : string),
      range_ok (config_env.range h) ->
      snd (config_env.initConfig h mode) <> Some (must_be_set "PORT") /\
      config_env.Port (fst (config_env.initConfig h mode)) <> "").
Proof.
  split.
  - intros h mode Hok.
    destruct (loadConfigFile h mode config_zero) as [file err] eqn:Hload.
    destruct err as [err |].
    + rewrite (initConfig_not_loaded h mode err) by (rewrite Hload; reflexivity).
      cbn [fst snd]. repeat split; try discriminate.
      intros [= ->].
      apply (loadConfigFile_error h mode config_zero (must_be_set "PORT"));
        [rewrite Hload |]; reflexivity.
    + rewrite (initConfig_loaded h mode file Hload). cbn [fst snd].
      pose proof (defaultPort_not_empty (overrideFromEnv h file)) as Hport.
      repeat split; try (intros _; exact Hport).
      intros He.
      destruct (requireConfigStrings_Some _ _ _ Hok He) as (key & Hk & Hin).
      unfold required in Hin. cbn [In] in Hin.
      destruct Hin as [H | [H | [H | [H | [H | []]]]]];
        injection H as Hkey Hvalue;
        try contradiction;
        subst key; cbv in Hk; discriminate Hk.
  - intros h mode Hok. unfold config_env.initConfig. cbn [fst snd].
    set (cfg := config_env.defaultPort _).
    assert (Hport : config_env.Port cfg <> "").
    { subst cfg. unfold config_env.defaultPort.
      match goal with
      | |- context [String.eqb ?p ""] =>
          destruct (String.eqb_spec p ""); [discriminate | assumption]
      end. }
    split; [| exact Hport].
    intros He.
    destruct (requireConfigStrings_Some _ _ _ Hok He) as (key & Hk & Hin).
    unfold config_env.required in Hin. cbn [In] in Hin.
    destruct Hin as [H | [H | []]]; injection H as Hkey Hvalue.
    + contradiction.
    + subst key. cbv in Hk. discriminate Hk.
Qed.

(** The statement at a host with nothing set, in both variants, where the
    port is the default, and at a host whose file has loaded and sets the
    port. *)
Lemma port_is_never_reported_missing_witness :
  (snd (initConfig (example.bare example.gopath example.backwards) "test") <>
     Some (must_be_set "PORT") /\
   Port (fst (initConfig (example.bare example.gopath example.backwards)
                "test")) <> "") /\
  (snd (initConfig (example.with_production_file example.gopath)
          "production") <> Some (must_be_set "PORT") /\
   Port (fst (initConfig (example.with_production_file example.gopath)
                "production")) <> "") /\
  (snd (config_env.initConfig (example.bare_env example.as_written) "test") <>
     Some (must_be_set "PORT") /\
   config_env.Port
     (fst (config_env.initConfig (example.bare_env example.as_written)
             "test")) <> "").
Proof.
  destruct port_is_never_reported_missing as [Hjson Henv].
  repeat apply conj.
  - apply (Hjson (example.bare example.gopath example.backwards) "test"
             backwards_ok).
  - destruct (Hjson (example.bare example.gopath example.backwards) "test"
                backwards_ok) as (_ & Hport & _).
    apply Hport. vm_compute. reflexivity.
  - apply (Hjson (example.with_production_file example.gopath) "production"
             as_written_ok).
  - destruct (Hjson (example.with_production_file example.gopath)
                "production" as_written_ok) as (_ & Hport & _).
    apply Hport. vm_compute. reflexivity.
  - apply (Henv (example.bare_env example.as_written) "test" as_written_ok).
  - apply (Henv (example.bare_env example.as_written) "test" as_written_ok).
Defined.

(** * Further properties of the code *)

(** ** task.go: what a lookup can answer *)

Lemma Read_world (t : Task) (w : World) : snd (Read t w) = w.
Proof.
  unfold Read. destruct (String.eqb (Id t) ""); reflexivity.
Qed.

Lemma Read_error_cases (t : Task) (w : World) :
  snd (fst (Read t w)) = None \/ snd (fst (Read t w)) = Some ErrNotFound.
Proof.
  unfold Read. destruct (String.eqb (Id t) ""); [right; reflexivity |].
  unfold QueryRow_qTaskReadById. run_monad. unfold UnmarshalSQL.
  destruct (outage (store w)) as [[| | msg] |]; cbn;
    try (right; reflexivity); try (left; reflexivity).
  destruct (tasks (store w) !! Id t); cbn;
    [left; reflexivity | right; reflexivity].
Qed.

(** [Read] returns no error or [ErrNotFound], nothing else: the error of a
    failed query reaches the caller only when it happens to be
    [sql.ErrNoRows]. With any other failure of the query of a non-empty
    identifier, [Read] returns no error and leaves the zero value in every
    field of the task, the identifier included. An empty identifier is
    answered with [ErrNotFound] without asking the store, which leaves the
    task as it is. *)
Theorem Read_reports_only_ErrNotFound (t : Task) (w : World) :
  (snd (fst (Read t w)) = None \/ snd (fst (Read t w)) = Some ErrNotFound) /\
  (forall e : error,
      Id t <> "" -> outage (store w) = Some e -> e <> sql_ErrNoRows ->
      Read t w = ((Task_zero, None), w)) /\
  (Id t = "" -> Read t w = ((t, Some ErrNotFound), w)).
Proof.
  repeat apply conj.
  - apply Read_error_cases.
  - intros e Hid Hdown Hne. unfold Read.
    rewrite (String_eqb_false _ _ Hid).
    unfold QueryRow_qTaskReadById. run_monad. rewrite Hdown.
    destruct e as [| | msg]; [reflexivity | contradiction | reflexivity].
  - intros Hid. unfold Read. rewrite Hid. reflexivity.
Qed.

(** The statement at a task with an identifier and a store whose connection
    is lost. *)
Lemma Read_reports_only_ErrNotFound_witness :
  Read (set_Id "a7c1-41d8" example.mirror)
    (mkWorld (mkDB ∅ (Some (errorString "connection refused")))
       example.quarter_clock 0 example.uuid_supply 0) =
  ((Task_zero, None),
   mkWorld (mkDB ∅ (Some (errorString "connection refused")))
     example.quarter_clock 0 example.uuid_supply 0).
Proof.
  eapply (Read_reports_only_ErrNotFound (set_Id "a7c1-41d8" example.mirror)).
  - discriminate.
  - reflexivity.
  - discriminate.
Defined.

(** ** task.go: what [Save] does to the store *)

(** The two shapes a call of [Save] has: an insertion, which leaves the rows
    alone or adds the row of the task under the identifier just drawn, and an
    update, which leaves the rows alone or rewrites the row of the task. *)
Lemma Save_cases (t : Task) (w : World) :
  (exists (err : option error) (rows : gmap string SqlRow),
      Save t w = ((spec.inserted t w, err), spec.after_insert w rows) /\
      ((rows = tasks (store w) /\ err <> None /\
        (outage (store w) = None -> err = Some duplicate_key) /\
        (forall e : error, outage (store w) = Some e -> err = Some e)) \/
       (rows = <[spec.next_uuid w := sqlArgs (spec.inserted t w)]>
                 (tasks (store w)) /\
        tasks (store w) !! spec.next_uuid w = None /\
        err = None /\ outage (store w) = None))) \/
  (exists (err : option error) (rows : gmap string SqlRow),
      Save t w =
        ((set_Updated (stamp (spec.now w)) t, err), spec.after_update w rows) /\
      ((rows = tasks (store w) /\ err = outage (store w)) \/
       (exists old : SqlRow,
           tasks (store w) !! Id t = Some old /\
           rows = <[Id t := updated_row old
                      (sqlArgs (set_Updated (stamp (spec.now w)) t))]>
                    (tasks (store w)) /\
           err = None /\ outage (store w) = None))).
Proof.
  pose proof (Read_world (set_Id (Id t) Task_zero) w) as Hw.
  destruct (Read_error_cases (set_Id (Id t) Task_zero) w) as [Herr | Herr].
  - right. unfold Save. cbv zeta. unfold bind at 1. cbv beta.
    rewrite Herr, Hw. cbn [is_ErrNotFound]. clear Herr Hw.
    unfold Exec_qTaskUpdate, spec.after_update, spec.now. run_monad.
    cbn [sqlArgs col_id set_Updated Id].
    destruct w as [[rows o] c r u d]. cbn [store tasks outage clock reads].
    destruct o as [e |].
    + exists (Some e), rows. split; [reflexivity | left; split; reflexivity].
    + destruct (rows !! Id t) as [old |] eqn:Hold; run_monad.
      * eexists None, _. split; [reflexivity |].
        right. exists old. repeat split.
      * exists None, rows. split; [reflexivity | left; split; reflexivity].
  - left. unfold Save. cbv zeta. unfold bind at 1. cbv beta.
    rewrite Herr, Hw. cbn [is_ErrNotFound]. clear Herr Hw.
    unfold Exec_qTaskInsert, spec.after_insert, spec.inserted, spec.now,
      spec.next_uuid.
    run_monad.
    cbn [sqlArgs col_id set_Updated set_Created set_Id Id Created].
    destruct w as [[rows o] c r u d].
    cbn [store tasks outage clock reads uuids draws].
    destruct o as [e |].
    + exists (Some e), rows. split; [reflexivity |].
      left. repeat split; [discriminate | discriminate | congruence].
    + destruct (rows !! u d) as [taken |] eqn:Hfree; run_monad.
      * exists (Some duplicate_key), rows. split; [reflexivity |].
        left. repeat split; discriminate.
      * eexists None, _. split; [reflexivity |].
        right. repeat split.
Qed.

Lemma store_eta (d : DB) : mkDB (tasks d) (outage d) = d.
Proof. destruct d; reflexivity. Qed.

(** Whatever the task and the world, [Save] reads the clock exactly once,
    leaves the state of the connection and every row filed under another
    identifier than the one it leaves in the task as they are, and removes
    no row; when it returns an error the store is the one it started from. *)
Theorem Save_touches_one_row (t : Task) (w : World) :
  let t' := fst (fst (Save t w)) in
  let w' := snd (Save t w) in
  (forall id : string,
      id <> Id t' -> tasks (store w') !! id = tasks (store w) !! id) /\
  (forall id : string,
      is_Some (tasks (store w) !! id) -> is_Some (tasks (store w') !! id)) /\
  outage (store w') = outage (store w) /\
  reads w' = S (reads w) /\
  (snd (fst (Save t w)) <> None -> store w' = store w).
Proof.
  cbv zeta.
  destruct (Save_cases t w) as [(err & rows & -> & H) | (err & rows & -> & H)];
    cbn [fst snd spec.after_insert spec.after_update store tasks outage reads].
  - destruct H as [(-> & Herr & _) | (-> & Hfree & -> & Hup)].
    + repeat split; auto. intros _. apply store_eta.
    + repeat split.
      * intros id Hid. apply lookup_insert_ne.
        intros Heq. apply Hid. rewrite <- Heq. reflexivity.
      * intros id Hsome.
        destruct (decide (spec.next_uuid w = id)) as [<- | Hne].
        -- rewrite lookup_insert_eq. eauto.
        -- rewrite lookup_insert_ne by exact Hne. exact Hsome.
      * intros Hcontra. contradiction.
  - destruct H as [(-> & Herr) | (old & Hold & -> & -> & Hup)].
    + repeat split; auto. intros _. apply store_eta.
    + repeat split.
      * intros id Hid. apply lookup_insert_ne.
        intros Heq. apply Hid. rewrite <- Heq. reflexivity.
      * intros id Hsome.
        destruct (decide (Id t = id)) as [<- | Hne].
        -- rewrite lookup_insert_eq. eauto.
        -- rewrite lookup_insert_ne by exact Hne. exact Hsome.
      * intros Hcontra. contradiction.
Qed.

(** While the connection to the store is lost, [Save] returns the error of
    the connection and the store is unchanged, whichever branch it takes:
    the insertion for an empty identifier, the update for any other (the
    lookup hides the failure), unless the failure is [sql.ErrNoRows]. *)
Theorem Save_during_outage (t : Task) (w : World) (e : error) :
  outage (store w) = Some e ->
  snd (fst (Save t w)) = Some e /\ store (snd (Save t w)) = store w.
Proof.
  intros Hdown.
  destruct (Save_cases t w) as [(err & rows & -> & H) | (err & rows & -> & H)];
    cbn [fst snd spec.after_insert spec.after_update store].
  - destruct H as [(-> & _ & _ & Herr) | (_ & _ & _ & Hup)];
      [| congruence].
    split; [exact (Herr e Hdown) | apply store_eta].
  - destruct H as [(-> & ->) | (old & _ & _ & _ & Hup)]; [| congruence].
    split; [exact Hdown | apply store_eta].
Qed.

(** The statement at a store whose connection is lost. *)
Lemma Save_during_outage_witness :
  snd (fst (Save example.mirror_saved
              (mkWorld (mkDB ∅ (Some (errorString "connection refused")))
                 example.quarter_clock 0 example.uuid_supply 0))) =
    Some (errorString "connection refused").
Proof.
  apply (Save_during_outage example.mirror_saved
           (mkWorld (mkDB ∅ (Some (errorString "connection refused")))
              example.quarter_clock 0 example.uuid_supply 0)).
  reflexivity.
Defined.

(** The statement at a second new task saved after a first one: the row of
    the first is as it was. *)
Lemma Save_touches_one_row_witness :
  tasks (store (snd (Save example.mirror example.world_saved))) !! "a7c1-41d8" =
  tasks (store example.world_saved) !! "a7c1-41d8".
Proof.
  apply (Save_touches_one_row example.mirror example.world_saved).
  vm_compute. discriminate.
Defined.

(** ** task.go: deleting *)

Lemma Delete_stored (missing : option error) (t : Task) (w : World)
    (old : SqlRow) :
  spec.healthy w -> tasks (store w) !! Id t = Some old ->
  Delete missing t w =
    ((t, None),
     mkWorld (mkDB (delete (Id t) (tasks (store w))) None) (clock w) (reads w)
       (uuids w) (draws w)).
Proof.
  unfold spec.healthy, Delete, Exec_qTaskDelete. intros Hup Hold. run_monad.
  rewrite Hup, Hold. run_monad. reflexivity.
Qed.

(** On a store that answers, [Delete] of a task whose identifier has a row
    returns no error, removes that row and no other, and a [Read] of the
    task after it returns [ErrNotFound]; the task itself, the clock and the
    generator are not touched. When no row has the identifier the store is
    left as it was, and [Delete] returns what the statement answers to
    that, whatever it is. While the connection is lost [Delete] returns the
    error of the connection and changes nothing. *)
Theorem Delete_removes_the_row (missing : option error) (t : Task)
    (w : World) :
  (spec.healthy w ->
   forall old : SqlRow,
     tasks (store w) !! Id t = Some old ->
     fst (Delete missing t w) = (t, None) /\
     tasks (store (snd (Delete missing t w))) !! Id t = None /\
     (forall id : string,
         id <> Id t ->
         tasks (store (snd (Delete missing t w))) !! id =
           tasks (store w) !! id) /\
     reads (snd (Delete missing t w)) = reads w /\
     draws (snd (Delete missing t w)) = draws w /\
     Read t (snd (Delete missing t w)) =
       ((t, Some ErrNotFound), snd (Delete missing t w))) /\
  (spec.healthy w ->
   tasks (store w) !! Id t = None ->
   Delete missing t w = ((t, missing), w)) /\
  (forall e : error,
     outage (store w) = Some e -> Delete missing t w = ((t, Some e), w)).
Proof.
  repeat apply conj.
  - intros Hup old Hold. rewrite (Delete_stored missing t w old Hup Hold).
    cbn [fst snd store tasks].
    repeat split.
    + apply lookup_delete_eq.
    + intros id Hid. apply lookup_delete_ne. congruence.
    + apply Read_unknown; [reflexivity |].
      right. cbn [store tasks]. apply lookup_delete_eq.
  - intros Hup Hnone. unfold Delete, Exec_qTaskDelete. run_monad.
    unfold spec.healthy in Hup. rewrite Hup, Hnone. reflexivity.
  - intros e Hdown. unfold Delete, Exec_qTaskDelete. run_monad.
    rewrite Hdown. reflexivity.
Qed.

(** The statement at the task saved in the example, and at a task that was
    never stored, with a statement that answers [ErrNotFound] to that. *)
Lemma Delete_removes_the_row_witness :
  Read example.mirror_saved
    (snd (Delete None example.mirror_saved example.world_saved)) =
  ((example.mirror_saved, Some ErrNotFound),
   snd (Delete None example.mirror_saved example.world_saved)) /\
  Delete (Some ErrNotFound) example.mirror example.world_saved =
    ((example.mirror, Some ErrNotFound), example.world_saved).
Proof.
  split.
  - destruct (Delete_removes_the_row None example.mirror_saved
                example.world_saved) as (Hstored & _).
    assert (Hup : spec.healthy example.world_saved) by reflexivity.
    assert (Hrow : tasks (store example.world_saved)
                     !! Id example.mirror_saved
                   = Some (sqlArgs example.mirror_saved))
      by (vm_compute; reflexivity).
    destruct (Hstored Hup _ Hrow) as (_ & _ & _ & _ & _ & Hread).
    exact Hread.
  - destruct (Delete_removes_the_row (Some ErrNotFound) example.mirror
                example.world_saved) as (_ & Habsent & _).
    apply Habsent; [reflexivity | vm_compute; reflexivity].
Defined.

(** A new task is saved and then deleted: the deletion succeeds and the
    rows of the store are the ones before the save. Saving the task once
    more inserts it again, under the next identifier of the generator; this
    is not the identifier it had, unless the generator repeats itself. *)
Theorem Save_Delete_Save (missing : option error) (t : Task) (w : World) :
  spec.healthy w -> spec.unknown t w ->
  tasks (store w) !! spec.next_uuid w = None ->
  let t1 := fst (fst (Save t w)) in
  let w1 := snd (Save t w) in
  let w2 := snd (Delete missing t1 w1) in
  snd (fst (Delete missing t1 w1)) = None /\
  tasks (store w2) = tasks (store w) /\
  fst (fst (Save t1 w2)) = spec.inserted t1 w2 /\
  Id (fst (fst (Save t1 w2))) = uuids w (S (draws w)) /\
  (uuids w (S (draws w)) <> uuids w (draws w) ->
   Id (fst (fst (Save t1 w2))) <> Id t1).
Proof.
  intros Hup Hnew Hfree. cbv zeta.
  rewrite (Save_insert t w Hup Hnew Hfree). cbn [fst snd].
  set (w1 := spec.after_insert w _).
  assert (Hup1 : spec.healthy w1) by exact Hup.
  assert (Hrow1 : tasks (store w1) !! Id (spec.inserted t w)
                  = Some (sqlArgs (spec.inserted t w))).
  { apply lookup_insert_eq. }
  rewrite (Delete_stored missing _ w1 _ Hup1 Hrow1). cbn [fst snd store tasks].
  assert (Hrows :
    delete (Id (spec.inserted t w)) (tasks (store w1)) = tasks (store w)).
  { cbn [w1 spec.after_insert store tasks spec.inserted set_Updated
           set_Created set_Id Id].
    rewrite delete_insert_eq. apply delete_id. exact Hfree. }
  rewrite Hrows.
  set (w2 := mkWorld _ _ _ _ _).
  assert (Hup2 : spec.healthy w2) by reflexivity.
  assert (Hnew2 : spec.unknown (spec.inserted t w) w2).
  { right. cbn [spec.inserted set_Updated set_Created set_Id Id].
    exact Hfree. }
  rewrite (Save_insert_task _ w2 Hup2 Hnew2).
  repeat split.
  intros Hdistinct. exact Hdistinct.
Qed.

(** The statement at the new task and the empty store of the example. *)
Lemma Save_Delete_Save_witness :
  Id (fst (fst (Save example.mirror_saved
                  (snd (Delete None example.mirror_saved
                          example.world_saved))))) = "b7c1-41d8" /\
  Id (fst (fst (Save example.mirror_saved
                  (snd (Delete None example.mirror_saved
                          example.world_saved))))) <> Id example.mirror_saved.
Proof.
  assert (Hup : spec.healthy example.world) by reflexivity.
  assert (Hnew : spec.unknown example.mirror example.world)
    by (left; reflexivity).
  assert (Hfree : tasks (store example.world) !! spec.next_uuid example.world
                  = None) by reflexivity.
  destruct (Save_Delete_Save None example.mirror example.world Hup Hnew Hfree)
    as (_ & _ & _ & Hid & Hother).
  split; [exact Hid | apply Hother; vm_compute; discriminate].
Defined.

(** ** task.go: saving twice *)

Lemma stamp_formula (t : Time) :
  time.unixNano (stamp t) =
    (time.Second *
       ((time.unixNano t + time.unixToInternal * time.Second + 500000000)
        / time.Second)
     - time.unixToInternal * time.Second)%Z.
Proof.
  pose proof (rem_Second_range t) as Hr.
  pose proof (stamp_nearest t) as [Hdown Hup]. cbv zeta in *.
  unfold time.rem in *.
  set (a := (time.unixNano t + time.unixToInternal * time.Second)%Z) in *.
  pose proof (Z.div_mod a time.Second ltac:(discriminate)) as Ha.
  set (q := (a / time.Second)%Z) in *.
  set (r := (a mod time.Second)%Z) in *.
  destruct (Z.lt_ge_cases (r + r) time.Second) as [H | H].
  - rewrite (Hdown H).
    assert (Hq : q = ((a + 500000000) / time.Second)%Z).
    { apply (Z.div_unique _ _ q (r + 500000000)%Z);
        [left; change time.Second with 1000000000%Z in *; lia | lia]. }
    rewrite <- Hq. subst a. lia.
  - rewrite (Hup H).
    assert (Hq : (q + 1)%Z = ((a + 500000000) / time.Second)%Z).
    { apply (Z.div_unique _ _ (q + 1)%Z (r + 500000000 - time.Second)%Z);
        [left; change time.Second with 1000000000%Z in *; lia | lia]. }
    rewrite <- Hq. subst a. lia.
Qed.

(** A later reading of the clock never gets an earlier stamp. *)
Lemma stamp_monotone (a b : Time) :
  (time.unixNano a <= time.unixNano b)%Z ->
  (time.unixNano (stamp a) <= time.unixNano (stamp b))%Z.
Proof.
  intros Hab. rewrite !stamp_formula.
  assert (H : ((time.unixNano a + time.unixToInternal * time.Second
                + 500000000) / time.Second
               <= (time.unixNano b + time.unixToInternal * time.Second
                   + 500000000) / time.Second)%Z).
  { apply Z.div_le_mono; [reflexivity | lia]. }
  change time.Second with 1000000000%Z in *. lia.
Qed.

(** A new task is saved, and the task as the first call left it is saved
    again. The second call succeeds and updates: it draws no identifier,
    changes nothing in the task but [Updated], and leaves the store with the
    rows it had before the first call and the one row of the task, which
    holds the task as the second call left it. If the clock has not gone
    back between the two calls, [Updated] has not gone back either. *)
Theorem Save_twice (t : Task) (w : World) :
  spec.healthy w -> spec.unknown t w ->
  tasks (store w) !! spec.next_uuid w = None ->
  spec.next_uuid w <> "" ->
  let t1 := fst (fst (Save t w)) in
  let w1 := snd (Save t w) in
  let t2 := fst (fst (Save t1 w1)) in
  let w2 := snd (Save t1 w1) in
  snd (fst (Save t1 w1)) = None /\
  t2 = set_Updated (stamp (clock w (S (reads w)))) t1 /\
  Id t2 = Id t1 /\ Created t2 = Created t1 /\
  draws w2 = draws w1 /\
  tasks (store w2) = <[Id t1 := sqlArgs t2]> (tasks (store w)) /\
  ((time.unixNano (clock w (reads w))
    <= time.unixNano (clock w (S (reads w))))%Z ->
   (time.unixNano (Updated t1) <= time.unixNano (Updated t2))%Z).
Proof.
  intros Hup Hnew Hfree Hid. cbv zeta.
  rewrite (Save_insert t w Hup Hnew Hfree). cbn [fst snd].
  set (t1 := spec.inserted t w).
  set (w1 := spec.after_insert w _).
  assert (Hup1 : spec.healthy w1) by exact Hup.
  assert (Hold : spec.known t1 w1 (sqlArgs t1)).
  { split; [exact Hid |]. apply lookup_insert_eq. }
  rewrite (Save_update t1 w1 (sqlArgs t1) Hup1 Hold). cbn [fst snd].
  repeat split.
  - cbn [spec.after_update store tasks w1 spec.after_insert].
    change (Id t1) with (spec.next_uuid w).
    rewrite insert_insert_eq. reflexivity.
  - intros Hclock. exact (stamp_monotone _ _ Hclock).
Qed.

(** The statement at the new task and the empty store of the example,
    whose clock advances. *)
Lemma Save_twice_witness :
  Created (fst (fst (Save example.mirror_saved example.world_saved))) =
    Created example.mirror_saved /\
  (time.unixNano (Updated example.mirror_saved)
   <= time.unixNano
        (Updated (fst (fst (Save example.mirror_saved example.world_saved)))))%Z.
Proof.
  assert (Hup : spec.healthy example.world) by reflexivity.
  assert (Hnew : spec.unknown example.mirror example.world)
    by (left; reflexivity).
  assert (Hfree : tasks (store example.world) !! spec.next_uuid example.world
                  = None) by reflexivity.
  assert (Hid : spec.next_uuid example.world <> "") by discriminate.
  destruct (Save_twice example.mirror example.world Hup Hnew Hfree Hid)
    as (_ & _ & _ & Hcreated & _ & _ & Hmono).
  split; [exact Hcreated | apply Hmono; vm_compute; discriminate].
Defined.

(** ** task.go: the status after each operation *)

(** The status a task has after each lifecycle operation, whether the
    operation returned an error or not. [Run] always leaves it running, with
    cancel as the next action. [Cancel] leaves a task that was never
    requested ready and any other task failed. [Errored] leaves a ready
    task ready and a finished task finished, and any other task failed.
    [Succeeded] leaves a ready task ready and any other task finished. *)
Theorem status_after_operation (sr sc : Task -> option error)
    (t : Task) (w : World) :
  let ready := String.eqb (StatusString t) "ready" in
  let finished := String.eqb (StatusString t) "finished" in
  StatusString (fst (fst (Run sr t w))) = "running" /\
  NextActionTitle (fst (fst (Run sr t w))) = ("cancel", None) /\
  StatusString (fst (fst (Cancel sc t w))) =
    (if ready then "ready" else "failed") /\
  (forall message : string,
      StatusString (fst (fst (Errored message t w))) =
        (if ready then "ready" else if finished then "finished" else "failed")) /\
  (forall url hash : string,
      StatusString (fst (fst (Succeeded url hash t w))) =
        (if ready then "ready" else "finished")).
Proof.
  cbv zeta.
  pose proof (apply_op_timestamps sr sc OpRun t w) as (Hr1 & Hr2 & Hr3).
  pose proof (apply_op_timestamps sr sc OpCancel t w) as (Hc1 & Hc2 & Hc3).
  cbn [apply_op] in *.
  repeat apply conj.
  - unfold StatusString. rewrite Hr1, Hr2, Hr3. reflexivity.
  - unfold NextActionTitle, StatusString. rewrite Hr1, Hr2, Hr3. reflexivity.
  - unfold StatusString. rewrite Hc1, Hc2, Hc3.
    destruct (Request t), (Success t), (Fail t); reflexivity.
  - intros message.
    pose proof (apply_op_timestamps sr sc (OpErrored message) t w)
      as (He1 & He2 & He3).
    cbn [apply_op] in *. unfold StatusString. rewrite ?He1, ?He2, ?He3.
    destruct (Request t), (Success t), (Fail t); reflexivity.
  - intros url hash.
    pose proof (apply_op_timestamps sr sc (OpSucceeded url hash) t w)
      as (Hs1 & Hs2 & Hs3).
    cbn [apply_op] in *. unfold StatusString. rewrite ?Hs1, ?Hs2, ?Hs3.
    destruct (Request t), (Success t), (Fail t); reflexivity.
Qed.

(** ** task.go: reading and saving back *)

(** A stored task is read and the task read is saved: the call succeeds,
    and the row of the store then has an empty message, the new [updated]
    stamp, and every other column as it was. *)
Theorem Read_then_Save_empties_message (t : Task) (w : World) (old : SqlRow) :
  spec.healthy w -> spec.known t w old -> col_id old = Id t ->
  let read := fst (fst (Read t w)) in
  snd (fst (Read t w)) = None /\
  snd (fst (Save read w)) = None /\
  tasks (store (snd (Save read w))) !! Id t =
    Some (mkRow (col_id old) (col_created old) (stamp (spec.now w))
            (col_title old) (col_request old) (col_success old)
            (col_fail old) (col_repo_url old) (col_repo_commit old)
            (col_source_url old) (col_source_checksum old)
            (col_result_url old) (col_result_hash old) "").
Proof.
  intros Hup Hold Hkey. cbv zeta.
  rewrite (Read_known t w old Hup Hold). cbn [fst snd].
  assert (Hold' : spec.known (spec.scanned old) w old).
  { destruct Hold as [Hid Hrow]. split; cbn [spec.scanned Id].
    - rewrite Hkey. exact Hid.
    - rewrite Hkey. exact Hrow. }
  rewrite (Save_update (spec.scanned old) w old Hup Hold'). cbn [fst snd].
  repeat split.
  cbn [spec.after_update store tasks spec.scanned Id]. rewrite <- Hkey.
  rewrite lookup_insert_eq. reflexivity.
Qed.

(** The statement at the task saved in the example, whose row holds the
    message [disk full]. *)
Lemma Read_then_Save_empties_message_witness :
  col_message <$>
    tasks (store example.world_saved) !! Id example.mirror_saved =
    Some "disk full" /\
  col_message <$>
    tasks (store (snd (Save (fst (fst (Read example.mirror_saved
                                         example.world_saved)))
                         example.world_saved)))
      !! Id example.mirror_saved = Some "".
Proof.
  split; [vm_compute; reflexivity |].
  assert (Hup : spec.healthy example.world_saved) by reflexivity.
  assert (Hold : spec.known example.mirror_saved example.world_saved
                   (sqlArgs example.mirror_saved)).
  { split; [discriminate | vm_compute; reflexivity]. }
  destruct (Read_then_Save_empties_message example.mirror_saved
              example.world_saved (sqlArgs example.mirror_saved) Hup Hold
              eq_refl) as (_ & _ & Hrow).
  rewrite Hrow. reflexivity.
Defined.

(** ** task.go: rows stay filed under their identifier *)

Lemma Save_keyed (t : Task) (w : World) :
  spec.keyed (store w) -> spec.keyed (store (snd (Save t w))).
Proof.
  intros Hkeyed.
  destruct (Save_cases t w) as [(err & rows & -> & H) | (err & rows & -> & H)];
    cbn [fst snd spec.after_insert spec.after_update store].
  - destruct H as [(-> & _) | (-> & _)]; intros k r; cbn [tasks].
    + apply Hkeyed.
    + destruct (decide (spec.next_uuid w = k)) as [<- | Hne].
      * rewrite lookup_insert_eq. intros [= <-]. reflexivity.
      * rewrite lookup_insert_ne by exact Hne. apply Hkeyed.
  - destruct H as [(-> & _) | (old & Hold & -> & _)]; intros k r; cbn [tasks].
    + apply Hkeyed.
    + destruct (decide (Id t = k)) as [<- | Hne].
      * rewrite lookup_insert_eq. intros [= <-]. cbn [updated_row col_id].
        exact (Hkeyed _ _ Hold).
      * rewrite lookup_insert_ne by exact Hne. apply Hkeyed.
Qed.

(** An operation ends in [Save], after one reading of the clock, or stops
    after that reading. *)
Lemma apply_op_world (sr sc : Task -> option error) (op : Op)
    (t : Task) (w : World) :
  snd (apply_op sr sc op t w) = spec.tick w \/
  exists t1 : Task, snd (apply_op sr sc op t w) = snd (Save t1 (spec.tick w)).
Proof.
  destruct op as [| | message | url hash]; cbn [apply_op].
  - rewrite Run_unfold. destruct (sr (spec.requested t w));
      [left; reflexivity | right; eexists; reflexivity].
  - rewrite Cancel_unfold. destruct (sc (spec.cancelled t w));
      [left; reflexivity | right; eexists; reflexivity].
  - right. eexists. rewrite Errored_unfold. reflexivity.
  - right. eexists. rewrite Succeeded_unfold. reflexivity.
Qed.

(** If every row of the store is filed under its own identifier, this is
    still so after [Save], after [Delete] and after any sequence of
    lifecycle operations, whatever they return; and in such a store that
    answers, reading a task whose identifier is known gives a task with that
    identifier. *)
Theorem rows_stay_keyed (sr sc : Task -> option error) (ops : list Op)
    (missing : option error) (t : Task) (w : World) :
  spec.keyed (store w) ->
  spec.keyed (store (snd (Save t w))) /\
  spec.keyed (store (snd (Delete missing t w))) /\
  spec.keyed (store (snd (apply_ops sr sc ops t w))) /\
  (spec.healthy w ->
   forall old : SqlRow,
     spec.known t w old ->
     fst (Read t w) = (spec.scanned old, None) /\
     Id (fst (fst (Read t w))) = Id t).
Proof.
  intros Hkeyed. repeat apply conj.
  - exact (Save_keyed t w Hkeyed).
  - unfold Delete, Exec_qTaskDelete. run_monad.
    destruct (outage (store w)); run_monad; [exact Hkeyed |].
    destruct (tasks (store w) !! Id t); run_monad; [| exact Hkeyed].
    intros k r. cbn [tasks].
    destruct (decide (Id t = k)) as [<- | Hne].
    + rewrite lookup_delete_eq. discriminate.
    + rewrite lookup_delete_ne by exact Hne. apply Hkeyed.
  - revert t w Hkeyed.
    induction ops as [| op ops IH]; intros t w Hkeyed; [exact Hkeyed |].
    cbn [apply_ops]. unfold bind. apply IH.
    destruct (apply_op_world sr sc op t w) as [-> | (t1 & ->)].
    + exact Hkeyed.
    + apply Save_keyed. exact Hkeyed.
  - intros Hup old Hold. rewrite (Read_known t w old Hup Hold).
    split; [reflexivity |]. cbn [fst spec.scanned Id].
    destruct Hold as [_ Hold]. exact (Hkeyed _ _ Hold).
Qed.

(** The statement at the example: the rows are still filed under their
    identifiers after the task is saved, run, cancelled and reported as
    errored. *)
Lemma rows_stay_keyed_witness :
  spec.keyed
    (store (snd (apply_ops example.delivered example.smtp_down
                   [OpRun; OpCancel; OpErrored "timeout"]
                   example.mirror_saved example.world_saved))).
Proof.
  assert (Hempty : spec.keyed (store example.world)).
  { intros k r. cbn. rewrite lookup_empty. discriminate. }
  assert (Hsaved : spec.keyed (store example.world_saved)).
  { apply (rows_stay_keyed example.delivered example.delivered [] None
             example.mirror example.world Hempty). }
  apply (rows_stay_keyed example.delivered example.smtp_down
           [OpRun; OpCancel; OpErrored "timeout"] None
           example.mirror_saved example.world_saved Hsaved).
Defined.

(** ** config.go: the required values *)

Lemma first_unset_all_set (entries : list (string * string)) :
  first_unset entries = None <->
  (forall key value : string, In (key, value) entries -> value <> "").
Proof.
  split.
  - intros Hnone key value Hin ->.
    exact (first_unset_None entries key Hin Hnone).
  - intros Hall. destruct (first_unset entries) as [e |] eqn:He;
      [| reflexivity].
    destruct (first_unset_Some _ _ He) as (key & _ & Hin).
    exfalso. exact (Hall key "" Hin eq_refl).
Qed.

Lemma requireConfigStrings_None_iff (order : RangeOrder)
    (values : list (string * string)) :
  range_ok order ->
  requireConfigStrings order values = None <->
  (forall key value : string, In (key, value) values -> value <> "").
Proof.
  intros Hok. unfold requireConfigStrings. rewrite first_unset_all_set. split.
  - intros Hall key value Hin.
    apply (Hall key value).
    exact (Permutation_in _ (Permutation_sym (Hok values)) Hin).
  - intros Hall key value Hin.
    apply (Hall key value). exact (Permutation_in _ (Hok values) Hin).
Qed.

(** Whatever the order the map is visited in, [requireConfigStrings]
    returns no error exactly when no value of the map is empty; an error it
    returns names a key whose value is empty; and when one key only has an
    empty value, the error names that key. *)
Theorem requireConfigStrings_reports_unset (order : RangeOrder)
    (values : list (string * string)) :
  range_ok order ->
  (requireConfigStrings order values = None <->
   (forall key value : string, In (key, value) values -> value <> "")) /\
  (forall e : error,
      requireConfigStrings order values = Some e ->
      exists key : string, e = must_be_set key /\ In (key, "") values) /\
  (forall key : string,
      In (key, "") values ->
      (forall key' : string, In (key', "") values -> key' = key) ->
      requireConfigStrings order values = Some (must_be_set key)).
Proof.
  intros Hok. split; [| split].
  - apply requireConfigStrings_None_iff. exact Hok.
  - intros e. apply requireConfigStrings_Some. exact Hok.
  - intros key Hin Honly.
    pose proof (requireConfigStrings_missing order values key Hok Hin) as Hsome.
    destruct (requireConfigStrings order values) as [e |] eqn:He;
      [| contradiction].
    destruct (requireConfigStrings_Some _ _ _ Hok He) as (key' & -> & Hin').
    rewrite (Honly key' Hin'). reflexivity.
Qed.

(** The statement at a map with one empty value, visited backwards. *)
Lemma requireConfigStrings_reports_unset_witness :
  requireConfigStrings example.backwards
    [("PORT", "8080"); ("POSTGRES_DB_URL", ""); ("GITHUB_REPO_NAME", "task-mgmt")]
  = Some (must_be_set "POSTGRES_DB_URL").
Proof.
  apply (requireConfigStrings_reports_unset example.backwards _ backwards_ok).
  - right. left. reflexivity.
  - cbn [In]. intros key' [H | [H | [H | []]]]; congruence.
Defined.

Lemma initConfig_loaded_succeeds (h : Host) (mode : string) (file : config) :
  range_ok (range h) ->
  loadConfigFile h mode config_zero = (file, None) ->
  snd (initConfig h mode) = None ->
  PostgresDbUrl (fst (initConfig h mode)) <> "" /\
  GithubRepoOwner (fst (initConfig h mode)) <> "" /\
  GithubRepoName (fst (initConfig h mode)) <> "" /\
  IdentityServerUrl (fst (initConfig h mode)) <> "".
Proof.
  intros Hok Hload. rewrite (initConfig_loaded h mode file Hload).
  cbn [fst snd]. set (cfg := defaultPort (overrideFromEnv h file)).
  unfold requireConfigStrings. rewrite first_unset_all_set. intros Hall.
  assert (Hin : forall key value,
             In (key, value) (required cfg) -> value <> "").
  { intros key value Hin. apply (Hall key value).
    exact (Permutation_in _ (Permutation_sym (Hok _)) Hin). }
  unfold required in Hin. cbn [In] in Hin. repeat split.
  - apply (Hin "POSTGRES_DB_URL"). auto.
  - apply (Hin "GITHUB_REPO_OWNER"). auto.
  - apply (Hin "GITHUB_REPO_NAME"). auto.
  - apply (Hin "IDENTITY_SERVER_URL"). auto 6.
Qed.

(** Once the file has loaded or is absent, [initConfig] of the variant that
    decodes a file returns no error exactly when the backing-store url, the
    repository owner, the repository name and the url of the identity
    server are all set in the struct it returns. [initConfig] of the other
    variant returns no error exactly when the backing-store url is set in
    the struct it returns, also when the loader reported an error. *)
Theorem initConfig_succeeds_iff :
  (forall (h : Host) (mode : string) (file : config),
      range_ok (range h) ->
      loadConfigFile h mode config_zero = (file, None) ->
      let cfg := fst (initConfig h mode) in
      snd (initConfig h mode) = None <->
      PostgresDbUrl cfg <> "" /\ GithubRepoOwner cfg <> "" /\
      GithubRepoName cfg <> "" /\ IdentityServerUrl cfg <> "") /\
  (forall (h : config_env.Host) (mode : string),
      range_ok (config_env.range h) ->
      snd (config_env.initConfig h mode) = None <->
      config_env.PostgresDbUrl (fst (config_env.initConfig h mode)) <> "").
Proof.
  split.
  - intros h mode file Hok Hload cfg. subst cfg.
    rewrite (initConfig_loaded h mode file Hload). cbn [fst snd].
    set (cfg := defaultPort (overrideFromEnv h file)).
    assert (Hport : Port cfg <> "") by apply defaultPort_not_empty.
    rewrite (requireConfigStrings_None_iff (range h) (required cfg) Hok). unfold required. cbn [In]. split.
    + intros Hall. repeat split.
      * apply (Hall "POSTGRES_DB_URL"). auto.
      * apply (Hall "GITHUB_REPO_OWNER"). auto.
      * apply (Hall "GITHUB_REPO_NAME"). auto.
      * apply (Hall "IDENTITY_SERVER_URL"). auto 6.
    + intros (H1 & H2 & H3 & H4) key value
        [H | [H | [H | [H | [H | []]]]]];
        injection H as _ <-; assumption.
  - intros h mode Hok. unfold config_env.initConfig. cbn [fst snd].
    set (cfg := config_env.defaultPort _).
    assert (Hport : config_env.Port cfg <> "").
    { subst cfg. unfold config_env.defaultPort.
      match goal with
      | |- context [String.eqb ?p ""] =>
          destruct (String.eqb_spec p ""); [discriminate | assumption]
      end. }
    rewrite (requireConfigStrings_None_iff (config_env.range h)
               (config_env.required cfg) Hok). unfold config_env.required. cbn [In]. split.
    + intros Hall. apply (Hall "POSTGRES_DB_URL"). auto.
    + intros H1 key value [H | [H | []]]; injection H as _ <-; assumption.
Qed.

(** The statement at a host whose environment sets the four values. *)
Lemma initConfig_succeeds_iff_witness :
  snd (initConfig
         (example.bare
            {[ "POSTGRES_DB_URL" := "postgres://db/tasks";
               "GITHUB_REPO_OWNER" := "datatogether";
               "GITHUB_REPO_NAME" := "task-mgmt";
               "IDENTITY_SERVER_URL" := "https://id.example.org" ]}
            example.backwards)
         "develop") = None.
Proof.
  destruct initConfig_succeeds_iff as [Hjson _].
  set (h := example.bare _ example.backwards).
  assert (Hload : loadConfigFile h "develop" config_zero = (config_zero, None))
    by (vm_compute; reflexivity).
  apply (Hjson h "develop" config_zero backwards_ok Hload).
  repeat split; vm_compute; discriminate.
Defined.

(** ** config.go: the port *)

Lemma overrideFromEnv_Port (h : Host) (file : config) :
  Port (overrideFromEnv h file) = readEnvString h "PORT" (Port file).
Proof. reflexivity. Qed.

(** The port [initConfig] resolves. In the variant that decodes a file, once
    the file has loaded or is absent: the variable PORT if it is set and not
    empty, else the port of the file if it is not empty, else 8080. In the
    other variant: the port the loader left if it is not empty, else 8080,
    every other field being as the loader left it. *)
Theorem resolved_port :
  (forall (h : Host) (mode : string) (file : config),
      loadConfigFile h mode config_zero = (file, None) ->
      Port (fst (initConfig h mode)) =
        if negb (String.eqb (os_Getenv h "PORT") "") then os_Getenv h "PORT"
        else if negb (String.eqb (Port file) "") then Port file
        else "8080") /\
  (forall (h : config_env.Host) (mode : string),
      let path := config_env.configFilePath h mode config_env.config_zero in
      let loaded :=
        fst (config_env.conf_Load h config_env.config_zero
               (if String.eqb path "" then [] else [path])) in
      config_env.Port (fst (config_env.initConfig h mode)) =
        (if String.eqb (config_env.Port loaded) "" then "8080"
         else config_env.Port loaded) /\
      config_env.set_Port (config_env.Port loaded)
        (fst (config_env.initConfig h mode)) = loaded).
Proof.
  split.
  - intros h mode file Hload.
    rewrite (initConfig_loaded h mode file Hload). cbn [fst].
    rewrite defaultPort_Port, overrideFromEnv_Port. unfold readEnvString.
    destruct (String.eqb_spec (os_Getenv h "PORT") "") as [HE | HE];
      cbn [negb].
    + destruct (String.eqb (Port file) ""); reflexivity.
    + rewrite (String_eqb_false _ _ HE). reflexivity.
  - intros h mode path loaded. unfold config_env.initConfig. cbn [fst].
    fold path.
    assert (Hloaded :
      (if negb (String.eqb path "")
       then fst (config_env.conf_Load h config_env.config_zero [path])
       else fst (config_env.conf_Load h config_env.config_zero [])) = loaded).
    { subst loaded. destruct (String.eqb path ""); reflexivity. }
    rewrite Hloaded. unfold config_env.defaultPort.
    destruct (String.eqb (config_env.Port loaded) "");
      split; try reflexivity; destruct loaded; reflexivity.
Qed.

(** The statement at the production file that sets the port to 9090, with
    PORT empty in the environment. *)
Lemma resolved_port_witness :
  Port (fst (initConfig
               (example.with_production_file
                  (<["PORT" := ""]> example.gopath))
               "production")) = "9090".
Proof.
  destruct resolved_port as [Hjson _].
  set (h := example.with_production_file _).
  assert (Hload : loadConfigFile h "production" config_zero =
                  (set_Port "9090" config_zero, None))
    by (vm_compute; reflexivity).
  rewrite (Hjson h "production" _ Hload). vm_compute. reflexivity.
Defined.

(** ** config.go: the configuration file *)

(** When the file of the mode exists (or [os.Stat] fails on it for another
    reason than its absence) and cannot be read, [initConfig] returns the
    error of the reading, which names the file, and the zero struct: the
    default file is not tried and the environment is not consulted. When
    the file is read and cannot be decoded, [initConfig] returns the error
    of the decoding and the struct as the decoder left it. *)
Theorem config_file_failure_aborts (h : Host) (mode : string) :
  let fileName := packagePath h ("config." +:+ mode +:+ ".json") in
  os_Stat h fileName <> StatNotExist ->
  (forall msg : string,
      ioutil_ReadFile h fileName = inr msg ->
      initConfig h mode =
        (config_zero,
         Some (errorString
                 ("error reading " +:+ fileName +:+ ": " +:+ msg)))) /\
  (forall (data msg : string) (partial : config),
      ioutil_ReadFile h fileName = inl data ->
      json_Unmarshal h data config_zero = (partial, Some msg) ->
      initConfig h mode =
        (partial,
         Some (errorString
                 ("error parsing " +:+ fileName +:+ ": " +:+ msg)))).
Proof.
  intros fileName Hstat.
  assert (Hname : configFileName h mode = Some fileName).
  { unfold configFileName, fileExists. fold fileName.
    destruct (os_Stat h fileName); [reflexivity | contradiction | reflexivity]. }
  split.
  - intros msg Hread. unfold initConfig, loadConfigFile.
    rewrite Hname, Hread. reflexivity.
  - intros data msg partial Hread Hdecode.
    unfold initConfig, loadConfigFile.
    rewrite Hname, Hread, Hdecode. reflexivity.
Qed.

(** The statement at the host whose production file cannot be read. *)
Lemma config_file_failure_aborts_witness :
  initConfig example.unreadable "production" =
    (config_zero,
     Some (errorString
             ("error reading " +:+ example.production_file
              +:+ ": permission denied"))).
Proof.
  apply (config_file_failure_aborts example.unreadable "production").
  - vm_compute. discriminate.
  - reflexivity.
Defined.

(** When neither the file of the mode nor the default file exists,
    [initConfig] reads the configuration from the environment alone: it
    fails on no file, every string field is its variable (empty when the
    variable is not set), the port is PORT or 8080, the TLS flag is true
    exactly for the three literals, and the list of recipients is empty
    without its variable and its variable split at the commas with it. *)
Theorem initConfig_without_files (h : Host) (mode : string) :
  os_Stat h (packagePath h ("config." +:+ mode +:+ ".json")) = StatNotExist ->
  os_Stat h (packagePath h "config.json") = StatNotExist ->
  let cfg := fst (initConfig h mode) in
  loadConfigFile h mode config_zero = (config_zero, None) /\
  Port cfg = (if String.eqb (os_Getenv h "PORT") "" then "8080"
              else os_Getenv h "PORT") /\
  UrlRoot cfg = os_Getenv h "URL_ROOT" /\
  PublicKey cfg = os_Getenv h "PUBLIC_KEY" /\
  TLS cfg = spec.env_true (os_Getenv h "TLS") /\
  PostgresDbUrl cfg = os_Getenv h "POSTGRES_DB_URL" /\
  CertbotResponse cfg = os_Getenv h "CERTBOT_RESPONSE" /\
  GithubRepoName cfg = os_Getenv h "GITHUB_REPO_NAME" /\
  GithubRepoOwner cfg = os_Getenv h "GITHUB_REPO_OWNER" /\
  PostmarkKey cfg = os_Getenv h "POSTMARK_KEY" /\
  UserCookieKey cfg = os_Getenv h "USER_COOKIE_KEY" /\
  IdentityServerUrl cfg = os_Getenv h "IDENTITY_SERVER_URL" /\
  EmailNotificationRecipients cfg =
    (if String.eqb (os_Getenv h "EMAIL_NOTIFICATION_RECIPIENTS") "" then []
     else strings_Split_comma (os_Getenv h "EMAIL_NOTIFICATION_RECIPIENTS")) /\
  ProxyForceHttps cfg = false /\
  TemplateData cfg = ∅.
Proof.
  intros Hmode Hdefault cfg.
  assert (Hload : loadConfigFile h mode config_zero = (config_zero, None)).
  { unfold loadConfigFile, configFileName, fileExists.
    rewrite Hmode. cbn [negb]. rewrite Hdefault. reflexivity. }
  subst cfg. rewrite (initConfig_loaded h mode config_zero Hload). cbn [fst].
  assert (Hstr : forall key, readEnvString h key "" = os_Getenv h key).
  { intros key. unfold readEnvString.
    destruct (String.eqb_spec (os_Getenv h key) "") as [-> | _]; reflexivity. }
  split; [exact Hload |].
  split.
  { rewrite defaultPort_Port, overrideFromEnv_Port.
    change (Port config_zero) with "". rewrite Hstr. reflexivity. }
  unfold defaultPort.
  destruct (String.eqb (Port (overrideFromEnv h config_zero)) "");
    cbn; rewrite !Hstr; repeat split;
    try (unfold readEnvBool, spec.env_true;
         destruct (String.eqb_spec (os_Getenv h "TLS") "") as [-> | _];
         reflexivity);
    unfold readEnvStringSlice;
    destruct (String.eqb (os_Getenv h "EMAIL_NOTIFICATION_RECIPIENTS") "");
    reflexivity.
Qed.

(** The statement at a host without files whose environment names two
    recipients. *)
Lemma initConfig_without_files_witness :
  EmailNotificationRecipients
    (fst (initConfig
            (example.bare
               {[ "EMAIL_NOTIFICATION_RECIPIENTS" := "a@example.org,b@example.org" ]}
               example.as_written)
            "test")) = ["a@example.org"; "b@example.org"].
Proof.
  set (h := example.bare _ example.as_written).
  destruct (initConfig_without_files h "test" eq_refl eq_refl)
    as (_ & _ & _ & _ & _ & _ & _ & _ & _ & _ & _ & _ & Hlist & _).
  rewrite Hlist. vm_compute. reflexivity.
Defined.

(** ** config.go: the list of recipients *)

Lemma strings_Split_comma_not_nil (s : string) : strings_Split_comma s <> [].
Proof.
  destruct s as [| c s']; cbn [strings_Split_comma]; [discriminate |].
  destruct (Ascii.eqb c ","%char); [discriminate |].
  destruct (strings_Split_comma s'); discriminate.
Qed.

Lemma concat_cons (sep x y : string) (l : list string) :
  String.concat sep (x :: y :: l) = x +:+ sep +:+ String.concat sep (y :: l).
Proof. reflexivity. Qed.

Lemma strings_Split_comma_join (s : string) :
  String.concat "," (strings_Split_comma s) = s.
Proof.
  induction s as [| c s' IH]; cbn [strings_Split_comma]; [reflexivity |].
  pose proof (strings_Split_comma_not_nil s') as Hne.
  destruct (strings_Split_comma s') as [| piece pieces]; [contradiction |].
  destruct (Ascii.eqb_spec c ","%char) as [-> | Hc].
  - rewrite concat_cons, IH. reflexivity.
  - destruct pieces as [| piece' pieces'].
    + rewrite <- IH. reflexivity.
    + rewrite <- IH. reflexivity.
Qed.

Lemma strings_Split_comma_pieces (s : string) :
  Forall (fun piece => spec.has_comma piece = false) (strings_Split_comma s).
Proof.
  induction s as [| c s' IH]; cbn [strings_Split_comma].
  - repeat constructor.
  - destruct (Ascii.eqb c ","%char) eqn:Hc.
    + constructor; [reflexivity | exact IH].
    + destruct (strings_Split_comma s') as [| piece pieces].
      * repeat constructor. cbn [spec.has_comma]. rewrite Hc. reflexivity.
      * inversion IH as [| ? ? Hpiece Hpieces]; subst.
        constructor; [| exact Hpieces].
        cbn [spec.has_comma]. rewrite Hc, Hpiece. reflexivity.
Qed.

(** When its variable is present and not empty, [readEnvStringSlice] gives a
    list that is not empty, whose items have no comma, and which joined with
    commas is the variable again: nothing is trimmed and no item is dropped,
    an empty item included. When the variable is absent or empty it gives
    the default. *)
Theorem readEnvStringSlice_splits (h : Host) (key : string)
    (def : list string) :
  (os_Getenv h key <> "" ->
     readEnvStringSlice h key def <> [] /\
     Forall (fun piece => spec.has_comma piece = false)
       (readEnvStringSlice h key def) /\
     String.concat "," (readEnvStringSlice h key def) = os_Getenv h key) /\
  (os_Getenv h key = "" -> readEnvStringSlice h key def = def).
Proof.
  unfold readEnvStringSlice. split.
  - intros Hset. rewrite (String_eqb_false _ _ Hset). cbn [negb].
    repeat split.
    + apply strings_Split_comma_not_nil.
    + apply strings_Split_comma_pieces.
    + apply strings_Split_comma_join.
  - intros ->. reflexivity.
Qed.

(** The statement at a variable with a space after the comma and a comma
    at the end. *)
Lemma readEnvStringSlice_splits_witness :
  String.concat ","
    (readEnvStringSlice
       (example.bare {[ "EMAIL_NOTIFICATION_RECIPIENTS" := "a@x.org, b@x.org," ]}
          example.as_written)
       "EMAIL_NOTIFICATION_RECIPIENTS" []) = "a@x.org, b@x.org,".
Proof.
  set (h := example.bare _ example.as_written).
  destruct (readEnvStringSlice_splits h "EMAIL_NOTIFICATION_RECIPIENTS" [])
    as [Hset _].
  destruct Hset as (_ & _ & Hjoin); [vm_compute; discriminate |].
  rewrite Hjoin. vm_compute. reflexivity.
Defined.

(** ** task.go: what an operation leaves in the store *)

(** The task an operation hands to [Save], when its notification, if it
    has one, is delivered. *)
Lemma apply_op_Save (sr sc : Task -> option error) (op : Op)
    (t : Task) (w : World) :
  sr (spec.requested t w) = None -> sc (spec.cancelled t w) = None ->
  exists t1 : Task,
    apply_op sr sc op t w = Save t1 (spec.tick w) /\ Id t1 = Id t.
Proof.
  intros Hsr Hsc. destruct op as [| | message | url hash]; cbn [apply_op].
  - rewrite Run_unfold, Hsr. eexists. split; reflexivity.
  - rewrite Cancel_unfold, Hsc. eexists. split; reflexivity.
  - rewrite Errored_unfold. eexists. split; reflexivity.
  - rewrite Succeeded_unfold. eexists. split; reflexivity.
Qed.

(** On a store that answers and with notifications that are delivered,
    every lifecycle operation succeeds and leaves the task in the store as
    it leaves it to the caller: for a task whose identifier is known, under
    that identifier, with the [created] column of the row as it was; for a
    task whose identifier is empty or unknown, under the identifier the
    operation has given it, provided the generator draws one that is not in
    the store. *)
Theorem operation_persists (sr sc : Task -> option error) (op : Op)
    (t : Task) (w : World) :
  spec.healthy w ->
  sr (spec.requested t w) = None -> sc (spec.cancelled t w) = None ->
  let t' := fst (fst (apply_op sr sc op t w)) in
  let w' := snd (apply_op sr sc op t w) in
  (forall old : SqlRow,
      spec.known t w old ->
      snd (fst (apply_op sr sc op t w)) = None /\
      Id t' = Id t /\
      tasks (store w') !! Id t = Some (updated_row old (sqlArgs t'))) /\
  (spec.unknown t w ->
   tasks (store w) !! spec.next_uuid w = None ->
   snd (fst (apply_op sr sc op t w)) = None /\
   Id t' = spec.next_uuid w /\
   tasks (store w') !! Id t' = Some (sqlArgs t')).
Proof.
  intros Hup Hsr Hsc. cbv zeta.
  destruct (apply_op_Save sr sc op t w Hsr Hsc) as (t1 & -> & Hid).
  assert (Hup1 : spec.healthy (spec.tick w)) by exact Hup.
  split.
  - intros old [Hne Hold].
    assert (Hold1 : spec.known t1 (spec.tick w) old).
    { split; rewrite Hid; assumption. }
    rewrite (Save_update t1 (spec.tick w) old Hup1 Hold1). cbn [fst snd].
    repeat split; [exact Hid |].
    cbn [spec.after_update store tasks]. rewrite <- Hid.
    apply lookup_insert_eq.
  - intros Hnew Hfree.
    assert (Hnew1 : spec.unknown t1 (spec.tick w)).
    { unfold spec.unknown. rewrite Hid. exact Hnew. }
    rewrite (Save_insert t1 (spec.tick w) Hup1 Hnew1 Hfree). cbn [fst snd].
    repeat split.
    cbn [spec.after_insert store tasks spec.inserted set_Updated set_Created
           set_Id Id].
    apply lookup_insert_eq.
Qed.

(** The statement at the saved task of the example, which is run: the row
    of the store then holds the request. *)
Lemma operation_persists_witness :
  col_request <$>
    tasks (store (snd (apply_op example.delivered example.delivered OpRun
                         example.mirror_saved example.world_saved)))
      !! Id example.mirror_saved =
  Some (Some (example.quarter_clock 1)).
Proof.
  assert (Hup : spec.healthy example.world_saved) by reflexivity.
  assert (Hold : spec.known example.mirror_saved example.world_saved
                   (sqlArgs example.mirror_saved)).
  { split; [discriminate | vm_compute; reflexivity]. }
  destruct (operation_persists example.delivered example.delivered OpRun
              example.mirror_saved example.world_saved Hup eq_refl eq_refl)
    as [Hknown _].
  destruct (Hknown _ Hold) as (_ & _ & Hrow).
  rewrite Hrow. vm_compute. reflexivity.
Defined.


(** ** config.go: the environment over the file *)



